(** * LRU and TTL caches (src/cache.py): a shallow embedding and its properties

    The two classes of [src/cache.py] are embedded as state-passing programs
    in a small state-and-exception monad:

    - a Python [dict] / [OrderedDict] is an association list in insertion
      order; its keys are pairwise distinct ([dict.wf]), which every method
      preserves;
    - an [int] is a [Z], a [float] is an IEEE-754 binary64, i.e. Rocq's
      primitive [float];
    - [time.time()] is an input of the method that calls it: every method
      reads the clock at most once, and receives that reading as [now];
    - [raise KeyError(...)] is the outcome [Raise KeyError]; the state a method
      leaves behind when it raises is part of its outcome. *)

From Stdlib Require Import ZArith.
From Stdlib Require Import Floats.PrimFloat Floats.SpecFloat Floats.FloatOps Floats.FloatAxioms.
From stdpp Require Import base list strings pretty.

Local Open Scope Z_scope.

(** ** Exceptions and the method monad *)

Inductive exn : Type := KeyError.

Inductive result (A : Type) : Type :=
| Ok (a : A)
| Raise (e : exn).
Arguments Ok {A} a.
Arguments Raise {A} e.

(** A method body: from the object's state to an outcome and the new state. *)
Definition M (S A : Type) : Type := S -> result A * S.

#[global] Instance M_ret {S} : MRet (M S) := fun A a s => (Ok a, s).

#[global] Instance M_bind {S} : MBind (M S) := fun A B f m s =>
  match m s with
  | (Ok a, s') => f a s'
  | (Raise e, s') => (Raise e, s')
  end.

Definition raise {S A} (e : exn) : M S A := fun s => (Raise e, s).

Definition gets {S A} (f : S -> A) : M S A := fun s => (Ok (f s), s).

Definition modify {S} (f : S -> S) : M S unit := fun s => (Ok tt, f s).

(** [try: m except KeyError: h] *)
Definition try_except {S A} (m : M S A) (h : exn -> M S A) : M S A := fun s =>
  match m s with
  | (Ok a, s') => (Ok a, s')
  | (Raise e, s') => h e s'
  end.

(** [for x in xs: body x] *)
Fixpoint for_ {S A} (xs : list A) (body : A -> M S unit) : M S unit :=
  match xs with
  | [] => mret tt
  | x :: xs' => _ ← body x; for_ xs' body
  end.

(** Python's [repr], for the keys and values that are rendered. *)
Class Repr (A : Type) := repr : A -> string.

(** [repr] of an [int] is its decimal numeral. *)
#[global] Instance repr_int : Repr Z := pretty.

(** [repr] of a [str]. A Python [str] whose code points are all below 256 is
    a [string] with one character per code point, and so is the rendering.
    The text goes between single quotes, or between double quotes when it
    holds a single quote and no double quote; the quote in use and the
    backslash are escaped with a backslash; tab, newline and carriage return
    become [\t], [\n], [\r]; every other code point that is not printable
    (below 32, from 127 to 160, and 173) becomes [\xhh]. *)
Definition hex_digit (d : N) : Ascii.ascii :=
  Ascii.ascii_of_N (if (d <? 10)%N then 48 + d else 87 + d)%N.

Definition str_char (n : N) : string := String (Ascii.ascii_of_N n) EmptyString.

Definition isprintable (n : N) : bool :=
  ((32 <=? n) && (n <? 127) || (161 <=? n) && negb (n =? 173))%N.

Definition repr_char (quote : N) (c : Ascii.ascii) : string :=
  let n := Ascii.N_of_ascii c in
  if ((n =? quote) || (n =? 92))%N then str_char 92 +:+ str_char n
  else if (n =? 9)%N then str_char 92 +:+ "t"
  else if (n =? 10)%N then str_char 92 +:+ "n"
  else if (n =? 13)%N then str_char 92 +:+ "r"
  else if isprintable n then str_char n
  else str_char 92 +:+ "x" +:+
       String (hex_digit (n / 16)) (String (hex_digit (n mod 16)) EmptyString).

Fixpoint repr_chars (quote : N) (s : string) : string :=
  match s with
  | EmptyString => EmptyString
  | String c s' => repr_char quote c +:+ repr_chars quote s'
  end.

Fixpoint has_char (n : N) (s : string) : bool :=
  match s with
  | EmptyString => false
  | String c s' => (Ascii.N_of_ascii c =? n)%N || has_char n s'
  end.

#[global] Instance repr_str : Repr string := fun s =>
  let quote := if has_char 39 s && negb (has_char 34 s) then 34%N else 39%N in
  str_char quote +:+ repr_chars quote s +:+ str_char quote.

(** Python's float comparisons [x <= y] and [x > y]. *)
Definition float_le (x y : float) : bool := PrimFloat.leb x y.
Definition float_gt (x y : float) : bool := PrimFloat.ltb y x.

(** ** The built-in dictionary

    Entries are kept in insertion order, as [dict] and [OrderedDict] do. *)
Module dict.
Abbreviation t K E := (list (K * E)) (only parsing).

Section dict.
Context {K E : Type} `{EqDecision K}.

(** [d[k]] as a lookup *)
Fixpoint lookup (k : K) (d : t K E) : option E :=
  match d with
  | [] => None
  | (k', e) :: d' => if decide (k' = k) then Some e else lookup k d'
  end.

(** [k in d] *)
Definition contains (k : K) (d : t K E) : bool :=
  match lookup k d with Some _ => true | None => false end.

(** the entries of [d] without the one of key [k] *)
Fixpoint remove (k : K) (d : t K E) : t K E :=
  match d with
  | [] => []
  | (k', e) :: d' =>
      if decide (k' = k) then remove k d' else (k', e) :: remove k d'
  end.

(** [d[k] = e]: an existing key keeps its place, a new key goes last *)
Fixpoint setitem (k : K) (e : E) (d : t K E) : t K E :=
  match d with
  | [] => [(k, e)]
  | (k', e') :: d' =>
      if decide (k' = k) then (k', e) :: d' else (k', e') :: setitem k e d'
  end.

(** [d[k]], raising on a missing key *)
Definition getitem (k : K) (d : t K E) : result (E * t K E) :=
  match lookup k d with
  | Some e => Ok (e, d)
  | None => Raise KeyError
  end.

(** [del d[k]] *)
Definition delitem (k : K) (d : t K E) : result (unit * t K E) :=
  if contains k d then Ok (tt, remove k d) else Raise KeyError.

(** [d.pop(k)] *)
Definition pop (k : K) (d : t K E) : result (E * t K E) :=
  match lookup k d with
  | Some e => Ok (e, remove k d)
  | None => Raise KeyError
  end.

(** [d.move_to_end(k)] *)
Definition move_to_end (k : K) (d : t K E) : result (unit * t K E) :=
  match lookup k d with
  | Some e => Ok (tt, remove k d ++ [(k, e)])
  | None => Raise KeyError
  end.

(** [d.popitem(last=False)] *)
Definition popitem_first (d : t K E) : result ((K * E) * t K E) :=
  match d with
  | [] => Raise KeyError
  | x :: d' => Ok (x, d')
  end.

(** [iter(d)] *)
Definition keys (d : t K E) : list K := fst <$> d.

(** the representation invariant of a dictionary: no key occurs twice *)
Definition wf (d : t K E) : Prop := NoDup (keys d).
End dict.
End dict.

(** ** class LRUCache *)
Module LRUCache.
Section LRUCache.
Context {K V : Type} `{EqDecision K}.

Record t : Type := mk { max_size : Z; data : dict.t K (V * float) }.

Definition set_data (d : dict.t K (V * float)) (self : t) : t :=
  {| max_size := max_size self; data := d |}.

(** an operation of the built-in dictionary, run on [self.data] *)
Definition on_data {A} (f : dict.t K (V * float) -> result (A * dict.t K (V * float)))
  : M t A := fun self =>
  match f (data self) with
  | Ok (a, d) => (Ok a, set_data d self)
  | Raise e => (Raise e, self)
  end.

Definition default_max_size : Z := 100.

Definition __init__ (max_size : Z) : result t :=
  Ok {| max_size := max_size; data := [] |}.

Definition __setitem__ (key : K) (value : V) (now : float) : M t unit :=
  present ← gets (fun self => dict.contains key (data self));
  _ ← (if present : bool then on_data (dict.move_to_end key)
       else
         full ← gets (fun self => max_size self <=? Z.of_nat (length (data self)));
         if full : bool then _ ← on_data dict.popitem_first; mret tt
         else mret tt);
  modify (fun self => set_data (dict.setitem key (value, now) (data self)) self).

Definition __getitem__ (key : K) (now : float) : M t V :=
  present ← gets (fun self => dict.contains key (data self));
  if present : bool then
    '(value, _) ← on_data (dict.pop key);
    _ ← __setitem__ key value now;
    mret value
  else raise KeyError.

Definition get (key : K) (default : option V) (now : float) : M t (option V) :=
  try_except (value ← __getitem__ key now; mret (Some value))
             (fun _ => mret default).

Definition __delitem__ (key : K) : M t unit :=
  present ← gets (fun self => dict.contains key (data self));
  if present : bool then on_data (dict.delitem key)
  else raise KeyError.

Definition __contains__ (key : K) : M t bool :=
  gets (fun self => dict.contains key (data self)).

Definition __len__ : M t nat :=
  gets (fun self => length (data self)).

Definition __iter__ : M t (list K) :=
  gets (fun self => dict.keys (data self)).

Definition render `{Repr K, Repr V} (d : dict.t K (V * float)) : string :=
  String.concat ", "
    ((fun '(k, v) => repr k +:+ ": " +:+ repr (fst v)) <$> d).

Definition __repr__ `{Repr K, Repr V} : M t string :=
  gets (fun self => "LRUCache({ " +:+ render (data self) +:+ " })").

(** *** Calls and what they give back *)

Inductive op : Type :=
| SetItem (key : K) (value : V)
| GetItem (key : K)
| Get (key : K) (default : option V)
| DelItem (key : K)
| Contains (key : K)
| Len
| Iter
| ReprOf.

Inductive res : Type :=
| RNone
| RValue (v : V)
| ROption (o : option V)
| RBool (b : bool)
| RLen (n : nat)
| RKeys (ks : list K)
| RStr (s : string)
| RRaise (e : exn).

Definition returning {A} (f : A -> res) (m : M t A) : t -> res * t := fun self =>
  match m self with
  | (Ok a, self') => (f a, self')
  | (Raise e, self') => (RRaise e, self')
  end.

(** one call on the cache; [now] is what [time.time()] gives during it *)
Definition step `{Repr K, Repr V} (o : op) (now : float) : t -> res * t :=
  match o with
  | SetItem key value => returning (fun _ => RNone) (__setitem__ key value now)
  | GetItem key => returning RValue (__getitem__ key now)
  | Get key default => returning ROption (get key default now)
  | DelItem key => returning (fun _ => RNone) (__delitem__ key)
  | Contains key => returning RBool (__contains__ key)
  | Len => returning RLen __len__
  | Iter => returning RKeys __iter__
  | ReprOf => returning RStr __repr__
  end.

(** a sequence of calls; the [i]-th call sees the clock reading [clock i] *)
Fixpoint run `{Repr K, Repr V} (clock : nat -> float) (i : nat) (ops : list op)
    (self : t) : list res * t :=
  match ops with
  | [] => ([], self)
  | o :: ops' =>
      let '(r, self') := step o (clock i) self in
      let '(rs, self'') := run clock (S i) ops' self' in
      (r :: rs, self'')
  end.

(** the new cache [LRUCache(n)] *)
Definition new (n : Z) : t := {| max_size := n; data := [] |}.
End LRUCache.
Arguments t : clear implicits.
Arguments op : clear implicits.
Arguments res : clear implicits.
End LRUCache.

(** ** class TTLCache *)
Module TTLCache.
Section TTLCache.
Context {K V : Type} `{EqDecision K}.

Record t : Type := mk { _ttl : float; _data : dict.t K (V * float) }.

Definition set_data (d : dict.t K (V * float)) (self : t) : t :=
  {| _ttl := _ttl self; _data := d |}.

(** an operation of the built-in dictionary, run on [self._data] *)
Definition on_data {A} (f : dict.t K (V * float) -> result (A * dict.t K (V * float)))
  : M t A := fun self =>
  match f (_data self) with
  | Ok (a, d) => (Ok a, set_data d self)
  | Raise e => (Raise e, self)
  end.

Definition default_ttl : float := 60%float.

Definition __init__ (ttl : float) : result t :=
  Ok {| _ttl := ttl; _data := [] |}.

Definition __setitem__ (key : K) (value : V) (now : float) : M t unit :=
  modify (fun self => set_data (dict.setitem key (value, now) (_data self)) self).

Definition __getitem__ (key : K) (now : float) : M t V :=
  present ← gets (fun self => dict.contains key (_data self));
  if present : bool then
    '(value, timestamp) ← on_data (dict.getitem key);
    ttl ← gets _ttl;
    if float_le (PrimFloat.sub now timestamp) ttl then mret value
    else _ ← on_data (dict.delitem key); raise KeyError
  else raise KeyError.

Definition get (key : K) (default : option V) (now : float) : M t (option V) :=
  try_except (value ← __getitem__ key now; mret (Some value))
             (fun _ => mret default).

Definition __delitem__ (key : K) : M t unit :=
  present ← gets (fun self => dict.contains key (_data self));
  if present : bool then on_data (dict.delitem key)
  else raise KeyError.

Definition __contains__ (key : K) (now : float) : M t bool :=
  present ← gets (fun self => dict.contains key (_data self));
  if present : bool then
    '(_, timestamp) ← on_data (dict.getitem key);
    ttl ← gets _ttl;
    if float_le (PrimFloat.sub now timestamp) ttl then mret true
    else _ ← on_data (dict.delitem key); mret false
  else mret false.

(** the list comprehension of [_expire_all] *)
Definition keys_to_remove (now ttl : float) (d : dict.t K (V * float)) : list K :=
  omap (fun '(k, (_, ts)) =>
          if float_gt (PrimFloat.sub now ts) ttl then Some k else None) d.

Definition _expire_all (now : float) : M t unit :=
  d ← gets _data;
  ttl ← gets _ttl;
  for_ (keys_to_remove now ttl d) (fun k => on_data (dict.delitem k)).

Definition __len__ (now : float) : M t nat :=
  _ ← _expire_all now;
  gets (fun self => length (_data self)).

Definition __iter__ (now : float) : M t (list K) :=
  _ ← _expire_all now;
  gets (fun self => dict.keys (_data self)).

Definition render `{Repr K, Repr V} (d : dict.t K (V * float)) : string :=
  String.concat ", "
    ((fun '(k, v) => repr k +:+ ": " +:+ repr (fst v)) <$> d).

Definition __repr__ `{Repr K, Repr V} (now : float) : M t string :=
  _ ← _expire_all now;
  gets (fun self => "TTLCache({ " +:+ render (_data self) +:+ " })").

(** *** Calls and what they give back *)

Inductive op : Type :=
| SetItem (key : K) (value : V)
| GetItem (key : K)
| Get (key : K) (default : option V)
| DelItem (key : K)
| Contains (key : K)
| Len
| Iter
| ReprOf.

Inductive res : Type :=
| RNone
| RValue (v : V)
| ROption (o : option V)
| RBool (b : bool)
| RLen (n : nat)
| RKeys (ks : list K)
| RStr (s : string)
| RRaise (e : exn).

Definition returning {A} (f : A -> res) (m : M t A) : t -> res * t := fun self =>
  match m self with
  | (Ok a, self') => (f a, self')
  | (Raise e, self') => (RRaise e, self')
  end.

(** one call on the cache; [now] is what [time.time()] gives during it *)
Definition step `{Repr K, Repr V} (o : op) (now : float) : t -> res * t :=
  match o with
  | SetItem key value => returning (fun _ => RNone) (__setitem__ key value now)
  | GetItem key => returning RValue (__getitem__ key now)
  | Get key default => returning ROption (get key default now)
  | DelItem key => returning (fun _ => RNone) (__delitem__ key)
  | Contains key => returning RBool (__contains__ key now)
  | Len => returning RLen (__len__ now)
  | Iter => returning RKeys (__iter__ now)
  | ReprOf => returning RStr (__repr__ now)
  end.

(** a sequence of calls; the [i]-th call sees the clock reading [clock i] *)
Fixpoint run `{Repr K, Repr V} (clock : nat -> float) (i : nat) (ops : list op)
    (self : t) : list res * t :=
  match ops with
  | [] => ([], self)
  | o :: ops' =>
      let '(r, self') := step o (clock i) self in
      let '(rs, self'') := run clock (S i) ops' self' in
      (r :: rs, self'')
  end.

(** the new cache [TTLCache(ttl)] *)
Definition new (ttl : float) : t := {| _ttl := ttl; _data := [] |}.
End TTLCache.
Arguments t : clear implicits.
Arguments op : clear implicits.
Arguments res : clear implicits.
End TTLCache.

(** ** Vocabulary of the LRU properties *)
Section lru_vocabulary.
Context {K V : Type} `{EqDecision K} `{Repr K, Repr V}.
Import LRUCache.

(** what every cache built by [LRUCache(n)] and then only used through its
    methods satisfies: distinct keys, and never more than [max_size] entries
    (a cache of non-positive capacity stays empty) *)
Definition lru_inv (c : LRUCache.t K V) : Prop :=
  dict.wf (data c) /\ (data c = [] \/ Z.of_nat (length (data c)) <= max_size c).

Inductive reachable (n : Z) : LRUCache.t K V -> Prop :=
| reach_new : reachable n (new n)
| reach_step o now c : reachable n c -> reachable n (snd (step o now c)).

(** Recency bookkeeping: the distinct keys in use, most recently touched
    first. A set touches its key, a get touches its key when it finds it,
    a delete that finds its key takes it out of the bookkeeping. *)
Definition touch (k : K) (h : list K) : list K := k :: filter (fun x => x ≠ k) h.

Definition forget (k : K) (h : list K) : list K := filter (fun x => x ≠ k) h.

Definition touched (o : op K V) (self : LRUCache.t K V) (h : list K) : list K :=
  match o with
  | SetItem k _ => touch k h
  | GetItem k | Get k _ => if dict.contains k (data self) then touch k h else h
  | DelItem k => if dict.contains k (data self) then forget k h else h
  | Contains _ | Len | Iter | ReprOf => h
  end.

Fixpoint recency (clock : nat -> float) (i : nat) (ops : list (op K V))
    (self : LRUCache.t K V) (h : list K) : list K :=
  match ops with
  | [] => h
  | o :: ops' =>
      recency clock (S i) ops' (snd (step o (clock i) self)) (touched o self h)
  end.

(** The same bookkeeping when a delete leaves the history alone: every key
    ever set or found, most recent first. *)
Definition touched_ever (o : op K V) (self : LRUCache.t K V) (h : list K) : list K :=
  match o with
  | DelItem _ => h
  | _ => touched o self h
  end.

Fixpoint recency_ever (clock : nat -> float) (i : nat) (ops : list (op K V))
    (self : LRUCache.t K V) (h : list K) : list K :=
  match ops with
  | [] => h
  | o :: ops' =>
      recency_ever clock (S i) ops' (snd (step o (clock i) self)) (touched_ever o self h)
  end.

Definition is_delete (o : op K V) : bool :=
  match o with DelItem _ => true | _ => false end.

(** a delete that finds its key *)
Definition delete_hit (o : op K V) (self : LRUCache.t K V) : bool :=
  match o with
  | DelItem k => dict.contains k (data self)
  | _ => false
  end.

(** the bookkeeping holds no more keys than the cache can *)
Definition within_capacity (self : LRUCache.t K V) (h : list K) : bool :=
  Z.of_nat (length h) <=? max_size self.

(** along the run, no delete finds its key *)
Fixpoint no_delete_hit (clock : nat -> float) (i : nat) (ops : list (op K V))
    (self : LRUCache.t K V) : bool :=
  match ops with
  | [] => true
  | o :: ops' =>
      negb (delete_hit o self) &&
      no_delete_hit clock (S i) ops' (snd (step o (clock i) self))
  end.

(** along the run, every delete that finds its key does so while the
    bookkeeping holds no more keys than the cache can: no key that was
    evicted, and neither set again nor deleted since, is pending *)
Fixpoint delete_hits_within_capacity (clock : nat -> float) (i : nat)
    (ops : list (op K V)) (self : LRUCache.t K V) (h : list K) : bool :=
  match ops with
  | [] => true
  | o :: ops' =>
      (negb (delete_hit o self) || within_capacity self h) &&
      delete_hits_within_capacity clock (S i) ops'
        (snd (step o (clock i) self)) (touched o self h)
  end.

(** how the entries relate to the bookkeeping [h]: the live keys, read from
    the most recently used end, are a prefix of [h] *)
Definition recency_inv (c : LRUCache.t K V) (h : list K) : Prop :=
  NoDup h /\ Z.of_nat (length (data c)) <= max_size c /\
  exists older, h = reverse (dict.keys (data c)) ++ older.

(** no room is left unused: the cache is full or holds every key of [h] *)
Definition filled (c : LRUCache.t K V) (h : list K) : Prop :=
  Z.of_nat (length (data c)) = max_size c \/ length h = length (data c).

(** a cache without its timestamps *)
Definition strip (d : dict.t K (V * float)) : dict.t K V :=
  (fun kv => (fst kv, fst (snd kv))) <$> d.

Definition erase (c : LRUCache.t K V) : Z * dict.t K V :=
  (max_size c, strip (data c)).
End lru_vocabulary.

(** ** Vocabulary of the TTL properties *)
Section ttl_vocabulary.
Context {K V : Type}.

(** the age of an entry stamped [ts], seen at [now], exceeds [ttl] *)
Definition expired (now ttl ts : float) : bool :=
  float_gt (PrimFloat.sub now ts) ttl.

(** the entries a sweep at [now] is to keep, in their order *)
Definition unexpired (now ttl : float) (d : dict.t K (V * float)) : dict.t K (V * float) :=
  filter (fun kv => expired now ttl (snd (snd kv)) = false) d.
End ttl_vocabulary.

(** * Facts about the built-in dictionary *)
Section dict_facts.
Context {K E : Type} `{EqDecision K}.
Implicit Types (k : K) (e : E) (d : dict.t K E).

Lemma lookup_cons k k' e d :
  dict.lookup k ((k', e) :: d) = if decide (k' = k) then Some e else dict.lookup k d.
Proof. reflexivity. Qed.

Lemma remove_cons k k' e d :
  dict.remove k ((k', e) :: d) =
  if decide (k' = k) then dict.remove k d else (k', e) :: dict.remove k d.
Proof. reflexivity. Qed.

Lemma lookup_None k d : dict.lookup k d = None <-> k ∉ dict.keys d.
Proof.
  unfold dict.keys. induction d as [|[k' e'] d IH]; simpl.
  - split; [intros _; apply not_elem_of_nil | done].
  - rewrite not_elem_of_cons. destruct (decide (k' = k)) as [->|Hne].
    + split; [done | intros [? _]; done].
    + rewrite IH. split; [intros ?; split; [congruence | done] | tauto].
Qed.

Lemma lookup_Some_elem k e d : dict.lookup k d = Some e -> (k, e) ∈ d.
Proof.
  induction d as [|[k' e'] d IH]; simpl; [done|].
  destruct (decide (k' = k)) as [->|Hne].
  - intros [= ->]. apply elem_of_cons; by left.
  - intros ?. apply elem_of_cons; right; auto.
Qed.

Lemma elem_lookup_Some k e d : dict.wf d -> (k, e) ∈ d -> dict.lookup k d = Some e.
Proof.
  unfold dict.wf, dict.keys. induction d as [|[k' e'] d IH]; simpl.
  - intros _ Hin. by apply elem_of_nil in Hin.
  - rewrite NoDup_cons. intros [Hk' Hnd] Hin.
    apply elem_of_cons in Hin as [[= <- <-]|Hin].
    + by rewrite decide_True.
    + rewrite decide_False; [auto|].
      intros ->. apply Hk'. apply (list_elem_of_fmap_2 fst) in Hin. exact Hin.
Qed.

Lemma contains_true k d : dict.contains k d = true <-> k ∈ dict.keys d.
Proof.
  unfold dict.contains. destruct (dict.lookup k d) eqn:Hl.
  - split; [intros _|done]. destruct (decide (k ∈ dict.keys d)) as [|Hn]; [done|].
    apply lookup_None in Hn. congruence.
  - apply lookup_None in Hl. split; [done | intros ?; contradiction].
Qed.

Lemma contains_false k d : dict.contains k d = false <-> k ∉ dict.keys d.
Proof.
  rewrite <- contains_true. destruct (dict.contains k d); split; congruence.
Qed.

Lemma contains_lookup k d :
  dict.contains k d = true <-> exists e, dict.lookup k d = Some e.
Proof.
  unfold dict.contains. destruct (dict.lookup k d); split; eauto; try done.
  intros [? ?]; done.
Qed.

Lemma keys_app d1 d2 : dict.keys (d1 ++ d2) = dict.keys d1 ++ dict.keys d2.
Proof. apply fmap_app. Qed.

Lemma keys_remove k d :
  dict.keys (dict.remove k d) = filter (fun x => x ≠ k) (dict.keys d).
Proof.
  unfold dict.keys. induction d as [|[k' e'] d IH]; simpl; [done|].
  destruct (decide (k' = k)) as [->|Hne].
  - rewrite filter_cons_False; [done | by intros ?].
  - rewrite filter_cons_True by done. csimpl. by rewrite IH.
Qed.

Lemma remove_absent k d : k ∉ dict.keys d -> dict.remove k d = d.
Proof.
  unfold dict.keys. induction d as [|[k' e'] d IH]; simpl; [done|].
  rewrite not_elem_of_cons. intros [Hne Hn].
  rewrite decide_False by congruence. by rewrite IH.
Qed.

Lemma lookup_remove_eq k d : dict.lookup k (dict.remove k d) = None.
Proof.
  apply lookup_None. rewrite keys_remove, list_elem_of_filter. tauto.
Qed.

Lemma lookup_remove_ne k k' d :
  k ≠ k' -> dict.lookup k' (dict.remove k d) = dict.lookup k' d.
Proof.
  intros Hne. induction d as [|[k0 e0] d IH]; simpl; [done|].
  destruct (decide (k0 = k)) as [->|Hne0]; simpl.
  - by rewrite decide_False.
  - destruct (decide (k0 = k')); [done | exact IH].
Qed.

Lemma lookup_app k d1 d2 :
  dict.lookup k (d1 ++ d2) =
  match dict.lookup k d1 with Some e => Some e | None => dict.lookup k d2 end.
Proof.
  induction d1 as [|[k0 e0] d1 IH]; simpl; [done|].
  destruct (decide (k0 = k)); [done | exact IH].
Qed.

Lemma setitem_absent k e d : k ∉ dict.keys d -> dict.setitem k e d = d ++ [(k, e)].
Proof.
  unfold dict.keys. induction d as [|[k' e'] d IH]; simpl; [done|].
  rewrite not_elem_of_cons. intros [Hne Hn].
  rewrite decide_False by congruence. by rewrite IH.
Qed.

Lemma setitem_last k e e0 d :
  k ∉ dict.keys d -> dict.setitem k e (d ++ [(k, e0)]) = d ++ [(k, e)].
Proof.
  unfold dict.keys. induction d as [|[k' e'] d IH]; simpl.
  - intros _. by rewrite decide_True.
  - rewrite not_elem_of_cons. intros [Hne Hn].
    rewrite decide_False by congruence. by rewrite IH.
Qed.

Lemma keys_setitem_present k e d :
  k ∈ dict.keys d -> dict.keys (dict.setitem k e d) = dict.keys d.
Proof.
  unfold dict.keys. induction d as [|[k' e'] d IH]; simpl.
  - intros Hin. by apply elem_of_nil in Hin.
  - intros Hin. destruct (decide (k' = k)) as [->|Hne]; [done|].
    simpl. f_equal. apply IH. apply elem_of_cons in Hin as [->|]; done.
Qed.

Lemma lookup_setitem_eq k e d : dict.lookup k (dict.setitem k e d) = Some e.
Proof.
  induction d as [|[k' e'] d IH]; simpl.
  - by rewrite decide_True.
  - destruct (decide (k' = k)) as [->|Hne]; simpl.
    + by rewrite decide_True.
    + by rewrite decide_False.
Qed.

Lemma lookup_setitem_ne k k' e d :
  k ≠ k' -> dict.lookup k' (dict.setitem k e d) = dict.lookup k' d.
Proof.
  intros Hne. induction d as [|[k0 e0] d IH]; simpl.
  - by rewrite decide_False.
  - destruct (decide (k0 = k)) as [->|Hne0]; simpl.
    + by rewrite !decide_False.
    + destruct (decide (k0 = k')); [done | exact IH].
Qed.

Lemma lookup_snoc k e d : k ∉ dict.keys d -> dict.lookup k (d ++ [(k, e)]) = Some e.
Proof.
  intros Hn. rewrite lookup_app, (proj2 (lookup_None k d) Hn). simpl.
  by rewrite decide_True.
Qed.

Lemma remove_snoc k e d : k ∉ dict.keys d -> dict.remove k (d ++ [(k, e)]) = d.
Proof.
  unfold dict.keys. induction d as [|[k' e'] d IH]; simpl.
  - intros _. by rewrite decide_True.
  - rewrite not_elem_of_cons. intros [Hne Hn].
    rewrite decide_False by congruence. by rewrite IH.
Qed.

Lemma wf_remove k d : dict.wf d -> dict.wf (dict.remove k d).
Proof. unfold dict.wf. rewrite keys_remove. apply NoDup_filter. Qed.

Lemma wf_setitem k e d : dict.wf d -> dict.wf (dict.setitem k e d).
Proof.
  unfold dict.wf. intros Hwf. destruct (decide (k ∈ dict.keys d)) as [Hin|Hn].
  - by rewrite keys_setitem_present.
  - rewrite setitem_absent, keys_app by done. apply NoDup_app.
    split; [done|]. split; [|apply NoDup_singleton].
    intros x Hx Hx'. apply list_elem_of_singleton in Hx'. simpl in Hx'. congruence.
Qed.

Lemma length_remove_present k d :
  dict.wf d -> k ∈ dict.keys d -> S (length (dict.remove k d)) = length d.
Proof.
  unfold dict.wf, dict.keys. induction d as [|[k' e'] d IH]; simpl.
  - intros _ Hin. by apply elem_of_nil in Hin.
  - rewrite NoDup_cons. intros [Hk' Hnd] Hin.
    destruct (decide (k' = k)) as [->|Hne].
    + by rewrite (remove_absent k d).
    + simpl. f_equal. apply IH; [done|].
      apply elem_of_cons in Hin as [->|]; done.
Qed.
End dict_facts.

#[global] Arguments dict.lookup : simpl never.
#[global] Arguments dict.contains : simpl never.
#[global] Arguments dict.remove : simpl never.
#[global] Arguments dict.setitem : simpl never.
#[global] Arguments dict.keys : simpl never.

(** * Facts about float comparison *)
Section float_facts.

Lemma SFcompare_antisym (x y : spec_float) :
  SFcompare y x = option_map CompOpp (SFcompare x y).
Proof.
  destruct x as [sx|sx| |sx mx ex], y as [sy|sy| |sy my ey]; simpl;
    try reflexivity; try (destruct sx; reflexivity); try (destruct sy; reflexivity);
    try (destruct sx, sy; reflexivity).
  destruct sx, sy; try reflexivity; f_equal;
    rewrite (Z.compare_antisym ex ey);
    destruct (ex ?= ey)%Z; simpl; try reflexivity;
    change (Pos.compare_cont Eq my mx) with (Pos.compare my mx);
    change (Pos.compare_cont Eq mx my) with (Pos.compare mx my);
    rewrite (Pos.compare_antisym mx my); try reflexivity.
Qed.

(** [x <= y] excludes [x > y] *)
Lemma float_le_not_gt (x y : float) : float_le x y = true -> float_gt x y = false.
Proof.
  unfold float_le, float_gt. rewrite leb_spec, ltb_spec. unfold SFleb, SFltb.
  rewrite (SFcompare_antisym (Prim2SF x) (Prim2SF y)).
  by destruct (SFcompare (Prim2SF x) (Prim2SF y)) as [[]|].
Qed.
End float_facts.

(** * Facts about LRUCache *)
Section lru_facts.
Context {K V : Type} `{EqDecision K}.
Import LRUCache.
Implicit Types (k key : K) (v value : V) (c : LRUCache.t K V) (now : float).

Lemma lru_setitem_present key value now c :
  key ∈ dict.keys (data c) ->
  __setitem__ key value now c =
  (Ok tt, set_data (dict.remove key (data c) ++ [(key, (value, now))]) c).
Proof.
  intros Hin. destruct c as [n d]; simpl in *.
  pose proof (proj2 (contains_true key d) Hin) as Hc.
  apply contains_lookup in Hc as Hl. destruct Hl as [e Hl].
  unfold __setitem__, mbind, M_bind, gets, on_data, modify, dict.move_to_end; simpl.
  rewrite Hc. simpl. rewrite Hl. simpl. unfold set_data; simpl. f_equal. f_equal.
  apply setitem_last. rewrite keys_remove, list_elem_of_filter. tauto.
Qed.

Lemma lru_setitem_room key value now c :
  key ∉ dict.keys (data c) ->
  Z.of_nat (length (data c)) < max_size c ->
  __setitem__ key value now c =
  (Ok tt, set_data (data c ++ [(key, (value, now))]) c).
Proof.
  intros Hn Hlt. destruct c as [n d]; simpl in *.
  pose proof (proj2 (contains_false key d) Hn) as Hc.
  unfold __setitem__, mbind, M_bind, gets, on_data, modify; simpl.
  rewrite Hc. simpl. destruct (Z.leb_spec n (Z.of_nat (length d))); [lia|]. simpl.
  unfold set_data; simpl. by rewrite setitem_absent.
Qed.

Lemma lru_setitem_evict key value now c x d' :
  key ∉ dict.keys (data c) ->
  max_size c <= Z.of_nat (length (data c)) ->
  data c = x :: d' ->
  __setitem__ key value now c =
  (Ok tt, set_data (d' ++ [(key, (value, now))]) c).
Proof.
  intros Hn Hge Hd. destruct c as [n d]; simpl in *. subst d.
  pose proof (proj2 (contains_false key _) Hn) as Hc.
  unfold __setitem__, mbind, M_bind, gets, on_data, modify; simpl.
  rewrite Hc. simpl. destruct (Z.leb_spec n (Z.of_nat (S (length d')))); [|simpl in *; lia].
  simpl. unfold set_data; simpl. rewrite setitem_absent; [done|].
  unfold dict.keys in *. rewrite fmap_cons, not_elem_of_cons in Hn. tauto.
Qed.

Lemma lru_setitem_empty_full key value now c :
  max_size c <= 0 -> data c = [] ->
  __setitem__ key value now c = (Raise KeyError, c).
Proof.
  intros Hle Hd. destruct c as [n d]; simpl in *. subst d.
  unfold __setitem__, mbind, M_bind, gets, on_data, modify; simpl.
  change (dict.contains key []) with false. simpl.
  destruct (n <=? _) eqn:Hfull; [done | apply Z.leb_gt in Hfull; simpl in Hfull; lia].
Qed.

Lemma lru_getitem_absent key now c :
  key ∉ dict.keys (data c) -> __getitem__ key now c = (Raise KeyError, c).
Proof.
  intros Hn. pose proof (proj2 (contains_false key _) Hn) as Hc.
  unfold __getitem__, mbind, M_bind, gets, raise; simpl. by rewrite Hc.
Qed.

Lemma lru_getitem_unfold key now c value ts :
  dict.lookup key (data c) = Some (value, ts) ->
  __getitem__ key now c =
  match __setitem__ key value now (set_data (dict.remove key (data c)) c) with
  | (Ok _, c') => (Ok value, c')
  | (Raise e, c') => (Raise e, c')
  end.
Proof.
  intros Hl. assert (dict.contains key (data c) = true) as Hc
    by (apply contains_lookup; eauto).
  unfold __getitem__ at 1. unfold mbind, M_bind, gets, on_data, dict.pop; simpl.
  rewrite Hc. simpl. rewrite Hl. simpl.
  destruct (__setitem__ key value now _) as [[[]|e] c']; done.
Qed.

Lemma lru_getitem_present key now c value ts :
  dict.wf (data c) ->
  Z.of_nat (length (data c)) <= max_size c ->
  dict.lookup key (data c) = Some (value, ts) ->
  __getitem__ key now c =
  (Ok value, set_data (dict.remove key (data c) ++ [(key, (value, now))]) c).
Proof.
  intros Hwf Hle Hl. rewrite (lru_getitem_unfold _ _ _ _ _ Hl).
  assert (key ∈ dict.keys (data c)) as Hin
    by (apply contains_true, contains_lookup; eauto).
  pose proof (length_remove_present key (data c) Hwf Hin) as Hlen.
  rewrite lru_setitem_room; simpl.
  - done.
  - rewrite keys_remove, list_elem_of_filter. tauto.
  - lia.
Qed.

Lemma lru_get_absent key default now c :
  key ∉ dict.keys (data c) -> get key default now c = (Ok default, c).
Proof.
  intros Hn. unfold get, try_except, mbind, M_bind.
  by rewrite lru_getitem_absent.
Qed.

Lemma lru_get_present key default now c value ts :
  dict.wf (data c) ->
  Z.of_nat (length (data c)) <= max_size c ->
  dict.lookup key (data c) = Some (value, ts) ->
  get key default now c =
  (Ok (Some value), set_data (dict.remove key (data c) ++ [(key, (value, now))]) c).
Proof.
  intros Hwf Hle Hl. unfold get, try_except, mbind, M_bind.
  by rewrite (lru_getitem_present _ _ _ _ _ Hwf Hle Hl).
Qed.

Lemma lru_delitem_absent key c :
  key ∉ dict.keys (data c) -> __delitem__ key c = (Raise KeyError, c).
Proof.
  intros Hn. pose proof (proj2 (contains_false key _) Hn) as Hc.
  unfold __delitem__, mbind, M_bind, gets, raise; simpl. by rewrite Hc.
Qed.

Lemma lru_delitem_present key c :
  key ∈ dict.keys (data c) ->
  __delitem__ key c = (Ok tt, set_data (dict.remove key (data c)) c).
Proof.
  intros Hin. pose proof (proj2 (contains_true key _) Hin) as Hc.
  unfold __delitem__, mbind, M_bind, gets, on_data, dict.delitem; simpl.
  rewrite Hc. simpl. by rewrite Hc.
Qed.

(** The four ways a set can go. *)
Lemma lru_setitem_cases key value now c :
  (key ∈ dict.keys (data c) /\
   __setitem__ key value now c =
   (Ok tt, set_data (dict.remove key (data c) ++ [(key, (value, now))]) c)) \/
  ((key ∉ dict.keys (data c)) /\ Z.of_nat (length (data c)) < max_size c /\
   __setitem__ key value now c =
   (Ok tt, set_data (data c ++ [(key, (value, now))]) c)) \/
  ((key ∉ dict.keys (data c)) /\ max_size c <= Z.of_nat (length (data c)) /\
   exists x d', data c = x :: d' /\
   __setitem__ key value now c =
   (Ok tt, set_data (d' ++ [(key, (value, now))]) c)) \/
  (max_size c <= 0 /\ data c = [] /\
   __setitem__ key value now c = (Raise KeyError, c)).
Proof.
  destruct (decide (key ∈ dict.keys (data c))) as [Hin|Hn].
  { left. split; [done|]. by apply lru_setitem_present. }
  right. destruct (Z.lt_ge_cases (Z.of_nat (length (data c))) (max_size c)) as [Hlt|Hge].
  { left. split; [done|]. split; [done|]. by apply lru_setitem_room. }
  right. destruct (data c) as [|x d'] eqn:Hd.
  - right. split; [simpl in Hge; lia|]. split; [done|].
    apply lru_setitem_empty_full; [simpl in Hge; lia | done].
  - left. split; [done|]. split; [done|]. exists x, d'. split; [done|].
    apply (lru_setitem_evict key value now c x d'); rewrite ?Hd; done.
Qed.
End lru_facts.

Section lru_invariant.
Context {K V : Type} `{EqDecision K} `{Repr K, Repr V}.
Import LRUCache.
Implicit Types (k key : K) (v value : V) (c : LRUCache.t K V) (now : float).

Lemma lru_inv_present_bound c key :
  lru_inv c -> key ∈ dict.keys (data c) ->
  Z.of_nat (length (data c)) <= max_size c.
Proof.
  intros [_ [Hd|Hle]] Hin; [|done].
  rewrite Hd in Hin. by apply elem_of_nil in Hin.
Qed.

Lemma lru_inv_new n : lru_inv (new n : LRUCache.t K V).
Proof. split; [apply NoDup_nil_2 | by left]. Qed.

Lemma wf_snoc key (e : V * float) (d : dict.t K (V * float)) :
  dict.wf d -> key ∉ dict.keys d -> dict.wf (d ++ [(key, e)]).
Proof.
  intros Hwf Hn. rewrite <- (setitem_absent key e d Hn). by apply wf_setitem.
Qed.

Lemma wf_touch key (e : V * float) (d : dict.t K (V * float)) :
  dict.wf d -> dict.wf (dict.remove key d ++ [(key, e)]).
Proof.
  intros Hwf. apply wf_snoc; [by apply wf_remove|].
  rewrite keys_remove, list_elem_of_filter. tauto.
Qed.

Lemma length_touch key (e : V * float) (d : dict.t K (V * float)) :
  dict.wf d -> key ∈ dict.keys d ->
  length (dict.remove key d ++ [(key, e)]) = length d.
Proof.
  intros Hwf Hin. rewrite length_app. simpl.
  pose proof (length_remove_present key d Hwf Hin). lia.
Qed.

Lemma lru_inv_setitem key value now c :
  lru_inv c -> lru_inv (snd (__setitem__ key value now c)).
Proof.
  intros [Hwf Hb].
  destruct (lru_setitem_cases key value now c)
    as [(Hin & ->)|[(Hn & Hlt & ->)|[(Hn & Hge & x & d' & Hd & ->)|(Hle & Hd & ->)]]];
    simpl; [| | |done].
  - split; simpl; [by apply wf_touch|]. right.
    rewrite length_touch by done. eapply lru_inv_present_bound; [split|]; done.
  - split; simpl; [by apply wf_snoc|]. right. rewrite length_app. simpl. lia.
  - rewrite Hd in *. unfold dict.wf, dict.keys in Hwf, Hn.
    rewrite fmap_cons in Hwf, Hn. apply NoDup_cons in Hwf as [_ Hwf].
    apply not_elem_of_cons in Hn as [_ Hn].
    split; simpl; [by apply wf_snoc|]. right.
    destruct Hb as [?|Hb]; [done|]. rewrite length_app. simpl in *. lia.
Qed.

Lemma lru_inv_touch key value now c :
  lru_inv c -> key ∈ dict.keys (data c) ->
  lru_inv (set_data (dict.remove key (data c) ++ [(key, (value, now))]) c).
Proof.
  intros Hinv Hin. pose proof (lru_inv_present_bound _ _ Hinv Hin).
  destruct Hinv as [Hwf _]. split; simpl; [by apply wf_touch|]. right.
  by rewrite length_touch.
Qed.

Lemma lru_inv_step o now c : lru_inv c -> lru_inv (snd (step o now c)).
Proof.
  intros Hinv. destruct o as [key value|key|key default|key|key| | |];
    unfold step, returning; try (simpl; exact Hinv).
  - pose proof (lru_inv_setitem key value now c Hinv) as Hs.
    destruct (__setitem__ key value now c) as [[[]|e] c']; exact Hs.
  - destruct (dict.lookup key (data c)) as [[value ts]|] eqn:Hl.
    + assert (key ∈ dict.keys (data c)) as Hin
        by (apply contains_true, contains_lookup; eauto).
      rewrite (lru_getitem_present key now c value ts);
        [by apply lru_inv_touch | apply Hinv | by eapply lru_inv_present_bound | done].
    + apply lookup_None in Hl. by rewrite lru_getitem_absent.
  - destruct (dict.lookup key (data c)) as [[value ts]|] eqn:Hl.
    + assert (key ∈ dict.keys (data c)) as Hin
        by (apply contains_true, contains_lookup; eauto).
      rewrite (lru_get_present key default now c value ts);
        [by apply lru_inv_touch | apply Hinv | by eapply lru_inv_present_bound | done].
    + apply lookup_None in Hl. by rewrite lru_get_absent.
  - destruct (decide (key ∈ dict.keys (data c))) as [Hin|Hn].
    + rewrite lru_delitem_present by done. simpl.
      destruct Hinv as [Hwf Hb]. split; simpl; [by apply wf_remove|].
      right. pose proof (length_remove_present key _ Hwf Hin).
      destruct Hb as [Hd|Hb]; [rewrite Hd in Hin; by apply elem_of_nil in Hin | lia].
    + by rewrite lru_delitem_absent.
Qed.

Lemma max_size_step o now c : max_size (snd (step o now c)) = max_size c.
Proof.
  destruct o as [key value|key|key default|key|key| | |];
    unfold step, returning; try reflexivity.
  - destruct (lru_setitem_cases key value now c)
      as [(_ & ->)|[(_ & _ & ->)|[(_ & _ & x & d' & _ & ->)|(_ & _ & ->)]]]; done.
  - destruct (dict.lookup key (data c)) as [[value ts]|] eqn:Hl.
    + rewrite (lru_getitem_unfold key now c value ts Hl).
      destruct (lru_setitem_cases key value now (set_data (dict.remove key (data c)) c))
        as [(_ & ->)|[(_ & _ & ->)|[(_ & _ & x & d' & _ & ->)|(_ & _ & ->)]]]; done.
    + apply lookup_None in Hl. by rewrite lru_getitem_absent.
  - unfold get, try_except, mbind, M_bind.
    destruct (dict.lookup key (data c)) as [[value ts]|] eqn:Hl.
    + rewrite (lru_getitem_unfold key now c value ts Hl).
      destruct (lru_setitem_cases key value now (set_data (dict.remove key (data c)) c))
        as [(_ & ->)|[(_ & _ & ->)|[(_ & _ & x & d' & _ & ->)|(_ & _ & ->)]]]; done.
    + apply lookup_None in Hl. by rewrite lru_getitem_absent.
  - destruct (decide (key ∈ dict.keys (data c))) as [Hin|Hn].
    + by rewrite lru_delitem_present.
    + by rewrite lru_delitem_absent.
Qed.

Lemma reachable_inv n c : reachable n c -> lru_inv c /\ max_size c = n.
Proof.
  induction 1 as [|o now c _ [IH1 IH2]].
  - split; [apply lru_inv_new | done].
  - split; [by apply lru_inv_step | by rewrite max_size_step].
Qed.

Lemma lru_set_then_get key value t1 t2 c c' :
  lru_inv c ->
  __setitem__ key value t1 c = (Ok tt, c') ->
  exists c'', __getitem__ key t2 c' = (Ok value, c'').
Proof.
  intros Hinv Hset.
  pose proof (lru_inv_setitem key value t1 c Hinv) as Hinv'. rewrite Hset in Hinv'.
  simpl in Hinv'.
  assert (exists d, data c' = d ++ [(key, (value, t1))] /\ key ∉ dict.keys d)
    as (d & Hd & Hn).
  { destruct (lru_setitem_cases key value t1 c)
      as [(Hin & He)|[(Hn & Hlt & He)|[(Hn & Hge & x & d' & Hd & He)|(Hle & Hd & He)]]];
      rewrite He in Hset; [| | |done]; injection Hset as <-; simpl.
    - eexists. split; [done|]. rewrite keys_remove, list_elem_of_filter. tauto.
    - eexists. by split.
    - eexists. split; [done|]. rewrite Hd in Hn. unfold dict.keys in Hn |- *.
      rewrite fmap_cons, not_elem_of_cons in Hn. tauto. }
  assert (dict.lookup key (data c') = Some (value, t1)) as Hl
    by (rewrite Hd; by apply lookup_snoc).
  eexists. apply (lru_getitem_present key t2 c' value t1); [apply Hinv' | | done].
  eapply lru_inv_present_bound; [done|].
  apply contains_true, contains_lookup. eauto.
Qed.

Lemma run_reachable clock ops : forall i n c,
  reachable n c -> reachable n (snd (run clock i ops c)).
Proof.
  induction ops as [|o ops IH]; intros i n c Hr; simpl; [done|].
  pose proof (reach_step n o (clock i) c Hr) as Hr'.
  destruct (step o (clock i) c) as [r c']. simpl in Hr'.
  specialize (IH (S i) n c' Hr').
  destruct (run clock (S i) ops c') as [rs c'']. exact IH.
Qed.
End lru_invariant.

(** * The recency order of LRUCache *)
Section lru_recency.
Context {K V : Type} `{EqDecision K} `{Repr K, Repr V}.
Import LRUCache.
Implicit Types (k key : K) (v value : V) (c : LRUCache.t K V) (now : float)
  (h l : list K).

Lemma filter_ne_absent k l : k ∉ l -> filter (fun x => x ≠ k) l = l.
Proof.
  induction l as [|x l IH]; [done|].
  rewrite not_elem_of_cons. intros [Hne Hn].
  rewrite filter_cons_True by congruence. by rewrite IH.
Qed.

Lemma length_filter_ne_present k l :
  NoDup l -> k ∈ l -> S (length (filter (fun x => x ≠ k) l)) = length l.
Proof.
  induction l as [|x l IH]; intros Hnd Hin.
  - by apply elem_of_nil in Hin.
  - apply NoDup_cons in Hnd as [Hx Hnd]. destruct (decide (x = k)) as [->|Hne].
    + rewrite filter_cons_False by (intros ?; done).
      by rewrite filter_ne_absent.
    + rewrite filter_cons_True by done. simpl. f_equal. apply IH; [done|].
      apply elem_of_cons in Hin as [->|]; done.
Qed.

Lemma NoDup_touch k h : NoDup h -> NoDup (touch k h).
Proof.
  intros Hnd. unfold touch. apply NoDup_cons. split.
  - rewrite list_elem_of_filter. tauto.
  - by apply NoDup_filter.
Qed.

Lemma touch_split k l older :
  touch k (reverse l ++ older) =
  reverse (filter (fun x => x ≠ k) l ++ [k]) ++ filter (fun x => x ≠ k) older.
Proof.
  unfold touch. by rewrite filter_app, filter_reverse, reverse_snoc.
Qed.

Lemma length_touch_present k h : NoDup h -> k ∈ h -> length (touch k h) = length h.
Proof. intros. unfold touch. simpl. by apply length_filter_ne_present. Qed.

Lemma length_touch_absent k h : k ∉ h -> length (touch k h) = S (length h).
Proof. intros. unfold touch. simpl. by rewrite filter_ne_absent. Qed.

Lemma keys_snoc key (e : V * float) (d : dict.t K (V * float)) :
  dict.keys (d ++ [(key, e)]) = dict.keys d ++ [key].
Proof. by rewrite keys_app. Qed.

Lemma recency_inv_wf c h : recency_inv c h -> dict.wf (data c).
Proof.
  intros (Hnd & _ & older & ->). apply NoDup_app in Hnd as [Hnd _].
  unfold dict.wf. by rewrite reverse_Permutation in Hnd.
Qed.

(** moving a live key to the most recently used end *)
Lemma recency_inv_touch key (e : V * float) c h :
  recency_inv c h -> key ∈ dict.keys (data c) ->
  recency_inv (set_data (dict.remove key (data c) ++ [(key, e)]) c) (touch key h).
Proof.
  intros Hinv Hin. pose proof (recency_inv_wf c h Hinv) as Hwf.
  destruct Hinv as (Hnd & Hle & older & ->).
  split; [by apply NoDup_touch|]. split; simpl.
  - by rewrite length_touch.
  - exists (filter (fun x => x ≠ key) older).
    by rewrite keys_snoc, keys_remove, touch_split.
Qed.

Lemma filled_touch key (e : V * float) c h :
  recency_inv c h -> key ∈ dict.keys (data c) -> filled c h ->
  filled (set_data (dict.remove key (data c) ++ [(key, e)]) c) (touch key h).
Proof.
  intros Hinv Hin Hf. pose proof (recency_inv_wf c h Hinv) as Hwf.
  destruct Hinv as (Hnd & Hle & older & ->).
  assert (length (touch key (reverse (dict.keys (data c)) ++ older)) =
          length (reverse (dict.keys (data c)) ++ older)) as Hlen.
  { apply length_touch_present; [done|].
    apply elem_of_app. left. by apply elem_of_reverse. }
  unfold filled in *. rewrite Hlen. simpl. by rewrite length_touch.
Qed.

Lemma recency_inv_setitem key value now c h :
  0 < max_size c -> recency_inv c h ->
  recency_inv (snd (__setitem__ key value now c)) (touch key h).
Proof.
  intros Hpos Hinv.
  destruct (lru_setitem_cases key value now c)
    as [(Hin & ->)|[(Hn & Hlt & ->)|[(Hn & Hge & x & d' & Hd & ->)|(Hle & Hd & ->)]]];
    simpl; [by apply recency_inv_touch | | | lia].
  - destruct Hinv as (Hnd & Hle & older & ->).
    split; [by apply NoDup_touch|]. split; simpl.
    + rewrite length_app. simpl. lia.
    + exists (filter (fun x => x ≠ key) older).
      rewrite keys_snoc, touch_split. by rewrite filter_ne_absent.
  - destruct Hinv as (Hnd & Hle & older & ->).
    split; [by apply NoDup_touch|]. rewrite Hd in *. split; simpl.
    + rewrite length_app. simpl in *. lia.
    + exists (filter (fun x => x ≠ key) (x.1 :: older)).
      unfold dict.keys in Hn |- *. rewrite fmap_cons in Hn |- *.
      apply not_elem_of_cons in Hn as [Hne Hn].
      rewrite reverse_cons, <- app_assoc. simpl.
      rewrite touch_split, fmap_app. simpl. by rewrite filter_ne_absent.
Qed.

Lemma filled_setitem key value now c h :
  0 < max_size c -> recency_inv c h -> filled c h ->
  filled (snd (__setitem__ key value now c)) (touch key h).
Proof.
  intros Hpos Hinv Hf.
  destruct (lru_setitem_cases key value now c)
    as [(Hin & ->)|[(Hn & Hlt & ->)|[(Hn & Hge & x & d' & Hd & ->)|(Hle & Hd & ->)]]];
    simpl; [by apply filled_touch | | | lia].
  - destruct Hinv as (Hnd & Hle & older & ->).
    destruct Hf as [Hf|Hf]; [lia|]. right.
    rewrite length_app, length_reverse in Hf.
    unfold dict.keys in Hf. rewrite length_fmap in Hf.
    assert (older = []) as -> by (destruct older; [done | simpl in Hf; lia]).
    rewrite app_nil_r. rewrite length_touch_absent by (by rewrite elem_of_reverse).
    rewrite length_reverse. unfold dict.keys. rewrite length_fmap. simpl.
    rewrite length_app. simpl. lia.
  - left. simpl. destruct Hinv as (_ & Hle & _). rewrite Hd in *.
    rewrite length_app. simpl in *. lia.
Qed.

Lemma recency_inv_step o now c h :
  0 < max_size c -> recency_inv c h ->
  recency_inv (snd (step o now c)) (touched o c h).
Proof.
  intros Hpos Hinv. pose proof (recency_inv_wf c h Hinv) as Hwf.
  destruct o as [key value|key|key default|key|key| | |];
    unfold step, returning; try (simpl; exact Hinv).
  - pose proof (recency_inv_setitem key value now c h Hpos Hinv) as Hs.
    destruct (__setitem__ key value now c) as [[[]|e] c']; exact Hs.
  - simpl. destruct (dict.lookup key (data c)) as [[value ts]|] eqn:Hl.
    + assert (key ∈ dict.keys (data c)) as Hin
        by (apply contains_true, contains_lookup; eauto).
      rewrite (proj2 (contains_true _ _) Hin).
      rewrite (lru_getitem_present key now c value ts);
        [by apply recency_inv_touch | done | apply Hinv | done].
    + apply lookup_None in Hl. rewrite (proj2 (contains_false _ _) Hl).
      by rewrite lru_getitem_absent.
  - simpl. destruct (dict.lookup key (data c)) as [[value ts]|] eqn:Hl.
    + assert (key ∈ dict.keys (data c)) as Hin
        by (apply contains_true, contains_lookup; eauto).
      rewrite (proj2 (contains_true _ _) Hin).
      rewrite (lru_get_present key default now c value ts);
        [by apply recency_inv_touch | done | apply Hinv | done].
    + apply lookup_None in Hl. rewrite (proj2 (contains_false _ _) Hl).
      by rewrite lru_get_absent.
  - simpl. destruct (decide (key ∈ dict.keys (data c))) as [Hin|Hn].
    + rewrite (proj2 (contains_true _ _) Hin), lru_delitem_present by done.
      destruct Hinv as (Hnd & Hle & older & ->). simpl.
      split; [by apply NoDup_filter|]. split; simpl.
      * pose proof (length_remove_present key _ Hwf Hin). lia.
      * exists (filter (fun x => x ≠ key) older). unfold forget.
        by rewrite filter_app, filter_reverse, keys_remove.
    + rewrite (proj2 (contains_false _ _) Hn). by rewrite lru_delitem_absent.
Qed.

Lemma filled_step o now c h :
  0 < max_size c -> recency_inv c h -> filled c h -> is_delete o = false ->
  filled (snd (step o now c)) (touched o c h).
Proof.
  intros Hpos Hinv Hf Hnodel. pose proof (recency_inv_wf c h Hinv) as Hwf.
  destruct o as [key value|key|key default|key|key| | |];
    unfold step, returning; try (simpl; exact Hf); [| | |done].
  - pose proof (filled_setitem key value now c h Hpos Hinv Hf) as Hs.
    destruct (__setitem__ key value now c) as [[[]|e] c']; exact Hs.
  - simpl. destruct (dict.lookup key (data c)) as [[value ts]|] eqn:Hl.
    + assert (key ∈ dict.keys (data c)) as Hin
        by (apply contains_true, contains_lookup; eauto).
      rewrite (proj2 (contains_true _ _) Hin).
      rewrite (lru_getitem_present key now c value ts);
        [by apply filled_touch | done | apply Hinv | done].
    + apply lookup_None in Hl. rewrite (proj2 (contains_false _ _) Hl).
      by rewrite lru_getitem_absent.
  - simpl. destruct (dict.lookup key (data c)) as [[value ts]|] eqn:Hl.
    + assert (key ∈ dict.keys (data c)) as Hin
        by (apply contains_true, contains_lookup; eauto).
      rewrite (proj2 (contains_true _ _) Hin).
      rewrite (lru_get_present key default now c value ts);
        [by apply filled_touch | done | apply Hinv | done].
    + apply lookup_None in Hl. rewrite (proj2 (contains_false _ _) Hl).
      by rewrite lru_get_absent.
Qed.

Lemma recency_inv_run clock ops : forall i c h,
  0 < max_size c -> recency_inv c h ->
  recency_inv (snd (run clock i ops c)) (recency clock i ops c h).
Proof.
  induction ops as [|o ops IH]; intros i c h Hpos Hinv; simpl; [done|].
  pose proof (recency_inv_step o (clock i) c h Hpos Hinv) as Hstep.
  pose proof (max_size_step o (clock i) c) as Hmax.
  destruct (step o (clock i) c) as [r c']. simpl in *.
  specialize (IH (S i) c' (touched o c h)).
  destruct (run clock (S i) ops c') as [rs c'']. simpl in *.
  apply IH; [lia | done].
Qed.

Lemma filled_run clock ops : forall i c h,
  0 < max_size c -> recency_inv c h -> filled c h ->
  forallb (fun o => negb (is_delete o)) ops = true ->
  filled (snd (run clock i ops c)) (recency clock i ops c h).
Proof.
  induction ops as [|o ops IH]; intros i c h Hpos Hinv Hf Hnd; simpl; [done|].
  simpl in Hnd. apply andb_prop in Hnd as [Ho Hnd]. apply negb_true_iff in Ho.
  pose proof (recency_inv_step o (clock i) c h Hpos Hinv) as Hstep.
  pose proof (filled_step o (clock i) c h Hpos Hinv Hf Ho) as Hfs.
  pose proof (max_size_step o (clock i) c) as Hmax.
  destruct (step o (clock i) c) as [r c']. simpl in *.
  specialize (IH (S i) c' (touched o c h)).
  destruct (run clock (S i) ops c') as [rs c'']. simpl in *.
  apply IH; [lia | done | done | done].
Qed.

Lemma filled_step_guarded o now c h :
  0 < max_size c -> recency_inv c h -> filled c h ->
  negb (delete_hit o c) || within_capacity c h = true ->
  filled (snd (step o now c)) (touched o c h).
Proof.
  intros Hpos Hinv Hf Hg. destruct (is_delete o) eqn:Hdel.
  - destruct o as [| | |key| | | |]; try discriminate Hdel. clear Hdel.
    simpl in Hg |- *. unfold step, returning.
    destruct (dict.contains key (data c)) eqn:Hc.
    + apply contains_true in Hc as Hin. rewrite lru_delitem_present by done.
      simpl in Hg. unfold within_capacity in Hg. apply Z.leb_le in Hg.
      pose proof (recency_inv_wf c h Hinv) as Hwf.
      destruct Hinv as (Hnd & Hle & older & Hh).
      assert (length h = length (data c) + length older)%nat as Hlen.
      { rewrite Hh, length_app, length_reverse. unfold dict.keys.
        by rewrite length_fmap. }
      assert (key ∈ h) as Hkh.
      { rewrite Hh. apply elem_of_app. left. by apply elem_of_reverse. }
      pose proof (length_remove_present key (data c) Hwf Hin) as Hrm.
      pose proof (length_filter_ne_present key h Hnd Hkh) as Hfl.
      right. unfold forget. cbn [snd set_data data].
      destruct Hf as [Hf|Hf]; lia.
    + apply contains_false in Hc. by rewrite lru_delitem_absent.
  - by apply filled_step.
Qed.

Lemma filled_run_guarded clock ops : forall i c h,
  0 < max_size c -> recency_inv c h -> filled c h ->
  delete_hits_within_capacity clock i ops c h = true ->
  filled (snd (run clock i ops c)) (recency clock i ops c h).
Proof.
  induction ops as [|o ops IH]; intros i c h Hpos Hinv Hf Hg; simpl; [done|].
  simpl in Hg. apply andb_prop in Hg as [Ho Hg].
  pose proof (recency_inv_step o (clock i) c h Hpos Hinv) as Hstep.
  pose proof (filled_step_guarded o (clock i) c h Hpos Hinv Hf Ho) as Hfs.
  pose proof (max_size_step o (clock i) c) as Hmax.
  destruct (step o (clock i) c) as [r c']. simpl in *.
  specialize (IH (S i) c' (touched o c h)).
  destruct (run clock (S i) ops c') as [rs c'']. simpl in *.
  apply IH; [lia | done | done | done].
Qed.

Lemma no_delete_hit_within_capacity clock ops : forall i c h,
  no_delete_hit clock i ops c = true ->
  delete_hits_within_capacity clock i ops c h = true.
Proof.
  induction ops as [|o ops IH]; intros i c h Hn; simpl; [done|].
  simpl in Hn. apply andb_prop in Hn as [Ho Hn].
  rewrite Ho. simpl. by apply IH.
Qed.

Lemma no_delete_no_delete_hit clock ops : forall i c,
  forallb (fun o => negb (is_delete o)) ops = true ->
  no_delete_hit clock i ops c = true.
Proof.
  induction ops as [|o ops IH]; intros i c Hn; simpl; [done|].
  simpl in Hn. apply andb_prop in Hn as [Ho Hn].
  rewrite IH by done. by destruct o.
Qed.

Lemma recency_inv_new n : 0 <= n -> recency_inv (new n : LRUCache.t K V) [].
Proof.
  intros Hn. split; [apply NoDup_nil_2|]. split; [simpl; lia|]. by exists [].
Qed.

Lemma max_size_run clock ops : forall i c, max_size (snd (run clock i ops c)) = max_size c.
Proof.
  induction ops as [|o ops IH]; intros i c; simpl; [done|].
  pose proof (max_size_step o (clock i) c) as Hmax.
  destruct (step o (clock i) c) as [r c']. simpl in *.
  specialize (IH (S i) c'). destruct (run clock (S i) ops c') as [rs c''].
  simpl in *. congruence.
Qed.
End lru_recency.

(** * LRUCache never reads its timestamps *)
Section lru_erasure.
Context {K V : Type} `{EqDecision K} `{Repr K, Repr V}.
Import LRUCache.
Implicit Types (k key : K) (v value : V) (c : LRUCache.t K V) (now : float)
  (d : dict.t K (V * float)).

Lemma strip_keys d : dict.keys (strip d) = dict.keys d.
Proof.
  unfold strip, dict.keys. rewrite <- list_fmap_compose.
  by apply list_fmap_ext.
Qed.

Lemma strip_length d : length (strip d) = length d.
Proof. unfold strip. by rewrite length_fmap. Qed.

Lemma strip_app d1 d2 : strip (d1 ++ d2) = strip d1 ++ strip d2.
Proof. unfold strip. by rewrite fmap_app. Qed.

Lemma strip_lookup k d : dict.lookup k (strip d) = fst <$> dict.lookup k d.
Proof.
  induction d as [|[k' [v t]] d IH]; [reflexivity|].
  unfold strip in *. rewrite fmap_cons, !lookup_cons. cbn.
  destruct (decide (k' = k)); [done | exact IH].
Qed.

Lemma strip_remove k d : strip (dict.remove k d) = dict.remove k (strip d).
Proof.
  induction d as [|[k' [v t]] d IH]; [reflexivity|].
  unfold strip in *. rewrite fmap_cons, !remove_cons. cbn.
  destruct (decide (k' = k)); [exact IH|]. rewrite fmap_cons. cbn. by rewrite IH.
Qed.

Lemma strip_eq_keys d1 d2 : strip d1 = strip d2 -> dict.keys d1 = dict.keys d2.
Proof. intros Hs. by rewrite <- (strip_keys d1), Hs, strip_keys. Qed.

Lemma strip_eq_length d1 d2 : strip d1 = strip d2 -> length d1 = length d2.
Proof. intros Hs. by rewrite <- (strip_length d1), Hs, strip_length. Qed.

Lemma strip_eq_lookup k d1 d2 v t :
  strip d1 = strip d2 -> dict.lookup k d1 = Some (v, t) ->
  exists t', dict.lookup k d2 = Some (v, t').
Proof.
  intros Hs Hl. pose proof (strip_lookup k d2) as Hl2.
  rewrite <- Hs, strip_lookup, Hl in Hl2. simpl in Hl2.
  destruct (dict.lookup k d2) as [[v' t']|]; [|done].
  simpl in Hl2. injection Hl2 as ->. by exists t'.
Qed.

Lemma render_strip d1 d2 : strip d1 = strip d2 -> render d1 = render d2.
Proof.
  intros Hs. unfold render. f_equal.
  transitivity ((fun kv : K * V => repr (fst kv) +:+ ": " +:+ repr (snd kv)) <$> strip d1).
  - unfold strip. rewrite <- list_fmap_compose. apply list_fmap_ext.
    by intros ? [k v].
  - rewrite Hs. unfold strip. rewrite <- list_fmap_compose. apply list_fmap_ext.
    by intros ? [k v].
Qed.

Lemma setitem_erase key value t1 t2 c1 c2 :
  erase c1 = erase c2 ->
  fst (__setitem__ key value t1 c1) = fst (__setitem__ key value t2 c2) /\
  erase (snd (__setitem__ key value t1 c1)) = erase (snd (__setitem__ key value t2 c2)).
Proof.
  unfold erase. intros [= Hmax Hs].
  pose proof (strip_eq_keys _ _ Hs) as Hk.
  pose proof (strip_eq_length _ _ Hs) as Hlen.
  destruct (lru_setitem_cases key value t1 c1)
    as [(Hin & ->)|[(Hn & Hlt & ->)|[(Hn & Hge & x & d' & Hd & ->)|(Hle & Hd & ->)]]].
  - rewrite (lru_setitem_present key value t2 c2) by (by rewrite <- Hk). simpl.
    split; [done|]. by rewrite Hmax, !strip_app, !strip_remove, Hs.
  - rewrite (lru_setitem_room key value t2 c2) by (rewrite <- ?Hk; first [done | lia]).
    simpl. split; [done|]. by rewrite Hmax, !strip_app, Hs.
  - destruct (data c2) as [|y d2'] eqn:Hd2.
    { rewrite Hd in Hs. discriminate Hs. }
    rewrite Hd in Hs. unfold strip in Hs. rewrite !fmap_cons in Hs.
    injection Hs as _ _ Hs'.
    rewrite (lru_setitem_evict key value t2 c2 y d2');
      [| by rewrite Hd2, <- Hk | rewrite Hd2, <- Hlen; lia | done].
    simpl. split; [done|]. rewrite Hmax, !strip_app. unfold strip. by rewrite Hs'.
  - destruct (data c2) as [|y d2'] eqn:Hd2.
    + rewrite (lru_setitem_empty_full key value t2 c2) by (first [done | lia]).
      simpl. split; [done|]. by rewrite Hmax, Hd, Hd2.
    + rewrite Hd in Hs. discriminate Hs.
Qed.

Lemma getitem_erase key t1 t2 c1 c2 :
  erase c1 = erase c2 ->
  fst (__getitem__ key t1 c1) = fst (__getitem__ key t2 c2) /\
  erase (snd (__getitem__ key t1 c1)) = erase (snd (__getitem__ key t2 c2)).
Proof.
  intros He. pose proof He as [= Hmax Hs]. fold (strip (data c1)) in Hs.
  fold (strip (data c2)) in Hs.
  pose proof (strip_eq_keys _ _ Hs) as Hk.
  destruct (dict.lookup key (data c1)) as [[value ts]|] eqn:Hl.
  - destruct (strip_eq_lookup _ _ _ _ _ Hs Hl) as [ts' Hl'].
    rewrite (lru_getitem_unfold key t1 c1 value ts Hl).
    rewrite (lru_getitem_unfold key t2 c2 value ts' Hl').
    destruct (setitem_erase key value t1 t2
                (set_data (dict.remove key (data c1)) c1)
                (set_data (dict.remove key (data c2)) c2)) as [Hr He'].
    { unfold erase. simpl. by rewrite Hmax, !strip_remove, Hs. }
    destruct (__setitem__ key value t1 _) as [[[]|e1] c1'],
             (__setitem__ key value t2 _) as [[[]|e2] c2']; simpl in *;
      first [done | by split; congruence].
  - apply lookup_None in Hl.
    rewrite lru_getitem_absent by done.
    rewrite lru_getitem_absent by (by rewrite <- Hk). done.
Qed.

Lemma step_erase o t1 t2 c1 c2 :
  erase c1 = erase c2 ->
  fst (step o t1 c1) = fst (step o t2 c2) /\
  erase (snd (step o t1 c1)) = erase (snd (step o t2 c2)).
Proof.
  intros He. pose proof He as [= Hmax Hs]. fold (strip (data c1)) in Hs.
  fold (strip (data c2)) in Hs.
  pose proof (strip_eq_keys _ _ Hs) as Hk.
  pose proof (strip_eq_length _ _ Hs) as Hlen.
  destruct o as [key value|key|key default|key|key| | |]; unfold step, returning.
  - destruct (setitem_erase key value t1 t2 c1 c2 He) as [Hr He'].
    destruct (__setitem__ key value t1 c1) as [[[]|e1] c1'],
             (__setitem__ key value t2 c2) as [[[]|e2] c2']; simpl in *;
      first [done | by split; congruence].
  - destruct (getitem_erase key t1 t2 c1 c2 He) as [Hr He'].
    destruct (__getitem__ key t1 c1) as [[v1|e1] c1'],
             (__getitem__ key t2 c2) as [[v2|e2] c2']; simpl in *;
      first [done | by split; congruence].
  - unfold get, try_except, mbind, M_bind.
    destruct (getitem_erase key t1 t2 c1 c2 He) as [Hr He'].
    destruct (__getitem__ key t1 c1) as [[v1|e1] c1'],
             (__getitem__ key t2 c2) as [[v2|e2] c2']; simpl in *;
      first [done | by split; congruence].
  - destruct (decide (key ∈ dict.keys (data c1))) as [Hin|Hn].
    + rewrite (lru_delitem_present key c1), (lru_delitem_present key c2)
        by (rewrite <- ?Hk; done).
      simpl. split; [done|]. unfold erase. simpl.
      by rewrite Hmax, !strip_remove, Hs.
    + rewrite (lru_delitem_absent key c1), (lru_delitem_absent key c2)
        by (rewrite <- ?Hk; done). done.
  - simpl. unfold dict.contains.
    pose proof (strip_lookup key (data c1)) as H1.
    pose proof (strip_lookup key (data c2)) as H2. rewrite Hs, H2 in H1.
    split; [|done].
    destruct (dict.lookup key (data c1)), (dict.lookup key (data c2)); done.
  - simpl. by rewrite Hlen.
  - simpl. by rewrite Hk.
  - simpl. by rewrite (render_strip _ _ Hs).
Qed.

Lemma run_erase ops : forall clock1 clock2 i1 i2 c1 c2,
  erase c1 = erase c2 ->
  fst (run clock1 i1 ops c1) = fst (run clock2 i2 ops c2) /\
  erase (snd (run clock1 i1 ops c1)) = erase (snd (run clock2 i2 ops c2)).
Proof.
  induction ops as [|o ops IH]; intros clock1 clock2 i1 i2 c1 c2 He; simpl; [done|].
  destruct (step_erase o (clock1 i1) (clock2 i2) c1 c2 He) as [Hr He'].
  destruct (step o (clock1 i1) c1) as [r1 c1'], (step o (clock2 i2) c2) as [r2 c2'].
  simpl in *. specialize (IH clock1 clock2 (S i1) (S i2) c1' c2' He').
  destruct (run clock1 (S i1) ops c1') as [rs1 c1''],
           (run clock2 (S i2) ops c2') as [rs2 c2'']. simpl in *.
  destruct IH as [-> ->]. by rewrite Hr.
Qed.
End lru_erasure.

(** * Facts about TTLCache *)
Section ttl_facts.
Context {K V : Type} `{EqDecision K}.
Import TTLCache.
Implicit Types (k key : K) (v value : V) (c : TTLCache.t K V) (now ts : float)
  (d : dict.t K (V * float)).

Lemma ttl_set_data_id c : set_data (_data c) c = c.
Proof. by destruct c. Qed.

Lemma ttl_getitem_absent key now c :
  dict.lookup key (_data c) = None ->
  __getitem__ key now c = (Raise KeyError, c).
Proof.
  intros Hl. unfold __getitem__, mbind, M_bind, gets, raise; simpl.
  unfold dict.contains. by rewrite Hl.
Qed.

Lemma ttl_getitem_fresh key now c value ts :
  dict.lookup key (_data c) = Some (value, ts) ->
  float_le (PrimFloat.sub now ts) (_ttl c) = true ->
  __getitem__ key now c = (Ok value, c).
Proof.
  intros Hl Hf. unfold __getitem__, mbind, M_bind, gets, on_data, dict.getitem; simpl.
  unfold dict.contains. rewrite Hl. simpl. rewrite Hl. simpl. rewrite Hf.
  by rewrite ttl_set_data_id.
Qed.

Lemma ttl_getitem_stale key now c value ts :
  dict.lookup key (_data c) = Some (value, ts) ->
  float_le (PrimFloat.sub now ts) (_ttl c) = false ->
  __getitem__ key now c = (Raise KeyError, set_data (dict.remove key (_data c)) c).
Proof.
  intros Hl Hf.
  unfold __getitem__, mbind, M_bind, gets, on_data, dict.getitem, dict.delitem; simpl.
  unfold dict.contains. rewrite Hl. simpl. rewrite Hl. simpl. rewrite Hf. simpl.
  by rewrite Hl.
Qed.

Lemma ttl_contains_absent key now c :
  dict.lookup key (_data c) = None ->
  __contains__ key now c = (Ok false, c).
Proof.
  intros Hl. unfold __contains__, mbind, M_bind, gets; simpl.
  unfold dict.contains. by rewrite Hl.
Qed.

Lemma ttl_contains_fresh key now c value ts :
  dict.lookup key (_data c) = Some (value, ts) ->
  float_le (PrimFloat.sub now ts) (_ttl c) = true ->
  __contains__ key now c = (Ok true, c).
Proof.
  intros Hl Hf. unfold __contains__, mbind, M_bind, gets, on_data, dict.getitem; simpl.
  unfold dict.contains. rewrite Hl. simpl. rewrite Hl. simpl. rewrite Hf.
  by rewrite ttl_set_data_id.
Qed.

Lemma ttl_contains_stale key now c value ts :
  dict.lookup key (_data c) = Some (value, ts) ->
  float_le (PrimFloat.sub now ts) (_ttl c) = false ->
  __contains__ key now c = (Ok false, set_data (dict.remove key (_data c)) c).
Proof.
  intros Hl Hf.
  unfold __contains__, mbind, M_bind, gets, on_data, dict.getitem, dict.delitem; simpl.
  unfold dict.contains. rewrite Hl. simpl. rewrite Hl. simpl. rewrite Hf. simpl.
  by rewrite Hl.
Qed.

Lemma ttl_delitem_absent key c :
  dict.lookup key (_data c) = None -> __delitem__ key c = (Raise KeyError, c).
Proof.
  intros Hl. unfold __delitem__, mbind, M_bind, gets, raise; simpl.
  unfold dict.contains. by rewrite Hl.
Qed.

Lemma ttl_delitem_present key c value ts :
  dict.lookup key (_data c) = Some (value, ts) ->
  __delitem__ key c = (Ok tt, set_data (dict.remove key (_data c)) c).
Proof.
  intros Hl. unfold __delitem__, mbind, M_bind, gets, on_data, dict.delitem; simpl.
  unfold dict.contains. rewrite Hl. simpl. by rewrite Hl.
Qed.

(** *** The sweep *)

Lemma remove_filter k d : dict.remove k d = filter (fun kv => fst kv ≠ k) d.
Proof.
  induction d as [|[k' e] d IH]; [done|]. rewrite remove_cons.
  destruct (decide (k' = k)) as [->|Hne].
  - rewrite filter_cons_False by (simpl; intros ?; done). exact IH.
  - rewrite filter_cons_True by done. by rewrite IH.
Qed.

Lemma filter_ext_in {A} (P Q : A -> Prop) `{!forall x, Decision (P x)}
    `{!forall x, Decision (Q x)} (l : list A) :
  (forall x, x ∈ l -> P x <-> Q x) -> filter P l = filter Q l.
Proof.
  induction l as [|x l IH]; intros Hpq; [done|].
  rewrite !filter_cons.
  assert (filter P l = filter Q l) as ->.
  { apply IH. intros y Hy. apply Hpq. apply elem_of_cons. by right. }
  assert (P x <-> Q x) as Hx by (apply Hpq; apply elem_of_cons; by left).
  destruct (decide (P x)), (decide (Q x)); tauto.
Qed.

Lemma foldl_remove ks : forall d,
  foldl (fun d k => dict.remove k d) d ks = filter (fun kv => fst kv ∉ ks) d.
Proof.
  induction ks as [|k ks IH]; intros d; simpl.
  - induction d as [|x d IHd]; [done|].
    rewrite filter_cons_True by apply not_elem_of_nil. by rewrite <- IHd.
  - rewrite IH, remove_filter, list_filter_filter.
    apply list_filter_iff. intros x. rewrite not_elem_of_cons. tauto.
Qed.

Lemma for_delitem ks : forall c,
  NoDup ks -> (forall k, k ∈ ks -> k ∈ dict.keys (_data c)) ->
  for_ ks (fun k => on_data (dict.delitem k)) c =
  (Ok tt, set_data (foldl (fun d k => dict.remove k d) (_data c) ks) c).
Proof.
  induction ks as [|k ks IH]; intros c Hnd Hin; simpl.
  - unfold mret, M_ret. by rewrite ttl_set_data_id.
  - apply NoDup_cons in Hnd as [Hk Hnd].
    unfold mbind, M_bind, on_data at 1, dict.delitem.
    rewrite (proj2 (contains_true k (_data c))) by (apply Hin, elem_of_cons; by left).
    rewrite IH; [done | done |]. simpl. intros k' Hk'.
    rewrite keys_remove, list_elem_of_filter. split; [by intros ->|].
    apply Hin, elem_of_cons. by right.
Qed.

Lemma elem_of_keys_to_remove k now ttl d :
  k ∈ keys_to_remove now ttl d <->
  exists v ts, (k, (v, ts)) ∈ d /\ expired now ttl ts = true.
Proof.
  unfold keys_to_remove. rewrite list_elem_of_omap. split.
  - intros ([k' [v ts]] & Hin & Hf). unfold expired.
    destruct (float_gt _ _) eqn:He; [|done]. injection Hf as ->. eauto.
  - intros (v & ts & Hin & He). exists (k, (v, ts)). split; [done|].
    unfold expired in He. by rewrite He.
Qed.

Lemma NoDup_keys_to_remove now ttl d : dict.wf d -> NoDup (keys_to_remove now ttl d).
Proof.
  unfold dict.wf, dict.keys. induction d as [|[k [v ts]] d IH]; [constructor|].
  rewrite fmap_cons, NoDup_cons. intros [Hk Hnd].
  change (keys_to_remove now ttl ((k, (v, ts)) :: d)) with
    (match (if float_gt (PrimFloat.sub now ts) ttl then Some k else None) with
     | Some y => y :: keys_to_remove now ttl d
     | None => keys_to_remove now ttl d
     end).
  destruct (float_gt (PrimFloat.sub now ts) ttl); [|by apply IH].
  apply NoDup_cons. split; [|by apply IH].
  intros Hin. apply elem_of_keys_to_remove in Hin as (v' & ts' & Hin & _).
  apply Hk. by apply (list_elem_of_fmap_2 fst) in Hin.
Qed.

Lemma expire_all_spec now c :
  dict.wf (_data c) ->
  _expire_all now c = (Ok tt, set_data (unexpired now (_ttl c) (_data c)) c).
Proof.
  intros Hwf. unfold _expire_all, mbind, M_bind, gets. simpl.
  rewrite for_delitem.
  - f_equal. f_equal. rewrite foldl_remove. unfold unexpired.
    apply filter_ext_in. intros [k [v ts]] Hin. simpl.
    rewrite elem_of_keys_to_remove. split.
    + intros Hn. destruct (expired now (_ttl c) ts) eqn:He; [|done].
      exfalso. apply Hn. eauto.
    + intros He (v' & ts' & Hin' & He').
      pose proof (elem_lookup_Some _ _ _ Hwf Hin) as H1.
      pose proof (elem_lookup_Some _ _ _ Hwf Hin') as H2.
      rewrite H1 in H2. injection H2 as -> ->. congruence.
  - by apply NoDup_keys_to_remove.
  - intros k Hin. apply elem_of_keys_to_remove in Hin as (v & ts & Hin & _).
    by apply (list_elem_of_fmap_2 fst) in Hin.
Qed.

Lemma wf_unexpired now ttl d : dict.wf d -> dict.wf (unexpired now ttl d).
Proof.
  unfold dict.wf, dict.keys, unexpired. induction d as [|[k e] d IH]; [done|].
  rewrite fmap_cons, NoDup_cons. intros [Hk Hnd]. rewrite filter_cons.
  destruct (decide _); [|by apply IH].
  rewrite fmap_cons. apply NoDup_cons. split; [|by apply IH].
  intros Hin. apply Hk. apply list_elem_of_fmap in Hin as (x & -> & Hx).
  apply list_elem_of_filter in Hx as [_ Hx]. by apply (list_elem_of_fmap_2 fst) in Hx.
Qed.

Lemma lookup_unexpired k now ttl d v ts :
  dict.wf d ->
  dict.lookup k (unexpired now ttl d) = Some (v, ts) <->
  dict.lookup k d = Some (v, ts) /\ expired now ttl ts = false.
Proof.
  intros Hwf. split.
  - intros Hl. apply lookup_Some_elem in Hl.
    apply list_elem_of_filter in Hl as [He Hin]. simpl in He.
    split; [by apply elem_lookup_Some | done].
  - intros [Hl He]. apply elem_lookup_Some; [by apply wf_unexpired|].
    apply list_elem_of_filter. split; [done | by apply lookup_Some_elem].
Qed.

(** every method keeps the dictionary well formed *)
Lemma ttl_wf_getitem key now c :
  dict.wf (_data c) -> dict.wf (_data (snd (__getitem__ key now c))).
Proof.
  intros Hwf. destruct (dict.lookup key (_data c)) as [[v ts]|] eqn:Hl.
  - destruct (float_le (PrimFloat.sub now ts) (_ttl c)) eqn:Hf.
    + by rewrite (ttl_getitem_fresh key now c v ts Hl Hf).
    + rewrite (ttl_getitem_stale key now c v ts Hl Hf). by apply wf_remove.
  - by rewrite (ttl_getitem_absent key now c Hl).
Qed.

Lemma ttl_wf_get key default now c :
  dict.wf (_data c) -> dict.wf (_data (snd (get key default now c))).
Proof.
  intros Hwf. pose proof (ttl_wf_getitem key now c Hwf) as Hget.
  unfold get, try_except, mbind, M_bind.
  destruct (__getitem__ key now c) as [[v|e] c']; exact Hget.
Qed.

Lemma ttl_wf_delitem key c :
  dict.wf (_data c) -> dict.wf (_data (snd (__delitem__ key c))).
Proof.
  intros Hwf. destruct (dict.lookup key (_data c)) as [[v ts]|] eqn:Hl.
  - rewrite (ttl_delitem_present key c v ts Hl). by apply wf_remove.
  - by rewrite (ttl_delitem_absent key c Hl).
Qed.

Lemma ttl_wf_contains key now c :
  dict.wf (_data c) -> dict.wf (_data (snd (__contains__ key now c))).
Proof.
  intros Hwf. destruct (dict.lookup key (_data c)) as [[v ts]|] eqn:Hl.
  - destruct (float_le (PrimFloat.sub now ts) (_ttl c)) eqn:Hf.
    + by rewrite (ttl_contains_fresh key now c v ts Hl Hf).
    + rewrite (ttl_contains_stale key now c v ts Hl Hf). by apply wf_remove.
  - by rewrite (ttl_contains_absent key now c Hl).
Qed.

Lemma ttl_wf_step `{Repr K, Repr V} o now c :
  dict.wf (_data c) -> dict.wf (_data (snd (step o now c))).
Proof.
  intros Hwf.
  destruct o as [key value|key|key default|key|key| | |]; unfold step, returning.
  - simpl. by apply wf_setitem.
  - pose proof (ttl_wf_getitem key now c Hwf) as Hg.
    destruct (__getitem__ key now c) as [[v|e] c']; exact Hg.
  - pose proof (ttl_wf_get key default now c Hwf) as Hg.
    destruct (get key default now c) as [[v|e] c']; exact Hg.
  - pose proof (ttl_wf_delitem key c Hwf) as Hd.
    destruct (__delitem__ key c) as [[[]|e] c']; exact Hd.
  - pose proof (ttl_wf_contains key now c Hwf) as Hc.
    destruct (__contains__ key now c) as [[b|e] c']; exact Hc.
  - unfold __len__, mbind, M_bind. rewrite (expire_all_spec now c Hwf). simpl.
    by apply wf_unexpired.
  - unfold __iter__, mbind, M_bind. rewrite (expire_all_spec now c Hwf). simpl.
    by apply wf_unexpired.
  - unfold __repr__, mbind, M_bind. rewrite (expire_all_spec now c Hwf). simpl.
    by apply wf_unexpired.
Qed.

(** every cache built by [TTLCache(ttl)] and used through its methods has a
    well-formed dictionary *)
Lemma ttl_wf_run `{Repr K, Repr V} clock ops : forall i c,
  dict.wf (_data c) -> dict.wf (_data (snd (run clock i ops c))).
Proof.
  induction ops as [|o ops IH]; intros i c Hwf; simpl; [done|].
  pose proof (ttl_wf_step o (clock i) c Hwf) as Hstep.
  destruct (step o (clock i) c) as [r c']. simpl in Hstep.
  specialize (IH (S i) c' Hstep).
  destruct (run clock (S i) ops c') as [rs c'']. exact IH.
Qed.
End ttl_facts.

(** * Properties of LRUCache *)
Section lru_properties.
Import LRUCache.

(** C1, as the code has it. For a cache built with [max_size = n > 0] and any
    sequence of calls (sets, gets, deletes and the read-only methods), seen
    at any clock readings: [size()] is at most [n]; the live keys, in
    iteration order, are the [size()] most recently touched keys of the
    recency bookkeeping (a set or a successful get touches its key, a
    successful delete removes it), least recent first. [size()] is the
    smaller of [n] and the number of keys in the bookkeeping, so that the
    live keys are its [n] (or fewer) most recently touched keys, exactly
    when the cache is full or every key of the bookkeeping is live. That is
    so whenever every delete that found its key came while the bookkeeping
    held at most [n] keys; in particular whenever no delete found its key,
    and whenever the sequence has no delete. *)
Theorem lru_size_and_recency {K V : Type} `{EqDecision K} `{Repr K, Repr V}
    (n : Z) (clock : nat -> float) (ops : list (op K V)) :
  0 < n ->
  let c := snd (run clock 0 ops (new n)) in
  let h := recency clock 0 ops (new n) [] in
  exists (size : nat) (live : list K),
    __len__ c = (Ok size, c) /\ __iter__ c = (Ok live, c) /\
    Z.of_nat size <= n /\
    live = reverse (take size h) /\
    (size = Nat.min (Z.to_nat n) (length h) <->
     Z.of_nat size = n \/ forall k, k ∈ h -> k ∈ live) /\
    (delete_hits_within_capacity clock 0 ops (new n) [] = true ->
     size = Nat.min (Z.to_nat n) (length h) /\
     live = reverse (take (Z.to_nat n) h)) /\
    (no_delete_hit clock 0 ops (new n) = true ->
     size = Nat.min (Z.to_nat n) (length h) /\
     live = reverse (take (Z.to_nat n) h)) /\
    (forallb (fun o => negb (is_delete o)) ops = true ->
     size = Nat.min (Z.to_nat n) (length h) /\
     live = reverse (take (Z.to_nat n) h)).
Proof.
  intros Hpos c h.
  assert (recency_inv c h) as Hinv.
  { apply recency_inv_run; [done | apply recency_inv_new; lia]. }
  assert (max_size c = n) as Hmax by apply max_size_run.
  exists (length (data c)), (dict.keys (data c)).
  split; [done|]. split; [done|].
  destruct Hinv as (Hnd & Hle & older & Hh).
  assert (length (dict.keys (data c)) = length (data c)) as Hkl
    by (unfold dict.keys; by rewrite length_fmap).
  assert (take (length (data c)) h = reverse (dict.keys (data c))) as Htake.
  { rewrite Hh. apply take_app_length'. by rewrite length_reverse. }
  assert (length h = length (data c) + length older)%nat as Hlen
    by (by rewrite Hh, length_app, length_reverse, Hkl).
  assert (length (data c) = Nat.min (Z.to_nat n) (length h) ->
          dict.keys (data c) = reverse (take (Z.to_nat n) h)) as Hexact.
  { intros Hsize.
    assert (take (Z.to_nat n) h = take (length (data c)) h) as ->.
    { destruct (Nat.le_gt_cases (Z.to_nat n) (length h)) as [Hge|Hlt].
      - f_equal. lia.
      - rewrite !take_ge by lia. done. }
    by rewrite Htake, reverse_involutive. }
  assert (delete_hits_within_capacity clock 0 ops (new n) [] = true ->
          length (data c) = Nat.min (Z.to_nat n) (length h)) as Hguard.
  { intros Hg. assert (filled c h) as Hf.
    { apply filled_run_guarded; [done | apply recency_inv_new; lia | by right | done]. }
    destruct Hf as [Hf|Hf]; lia. }
  split; [lia|]. split; [by rewrite Htake, reverse_involutive|].
  split; [|split; [|split]].
  - split.
    + intros Hsize.
      destruct (decide (Z.of_nat (length (data c)) = n)) as [|Hne]; [by left|].
      right. assert (older = []) as -> by (destruct older; [done | simpl in Hlen; lia]).
      rewrite app_nil_r in Hh. intros k Hk.
      apply elem_of_reverse. by rewrite <- Hh.
    + intros [Hfull|Hall]; [lia|].
      assert (length h <= length (dict.keys (data c)))%nat as Hhl
        by (apply submseteq_length; by apply NoDup_submseteq).
      lia.
  - intros Hg. split; [by apply Hguard | by apply Hexact, Hguard].
  - intros Hg. apply (no_delete_hit_within_capacity clock ops 0 (new n) []) in Hg.
    split; [by apply Hguard | by apply Hexact, Hguard].
  - intros Hg. apply (no_delete_no_delete_hit clock ops 0 (new n)) in Hg.
    apply (no_delete_hit_within_capacity clock ops 0 (new n) []) in Hg.
    split; [by apply Hguard | by apply Hexact, Hguard].
Qed.

Lemma lru_size_and_recency_witness :
  let clock := fun _ : nat => 0%float in
  let ops := [DelItem "z"; SetItem "a" 1; SetItem "b" 2; DelItem "a";
              SetItem "c" 3; GetItem "b"; SetItem "d" 4] in
  let c := snd (run clock 0 ops (new 2 : LRUCache.t string Z)) in
  let h := recency clock 0 ops (new 2 : LRUCache.t string Z) [] in
  0 < 2 /\
  delete_hits_within_capacity clock 0 ops (new 2 : LRUCache.t string Z) [] = true /\
  no_delete_hit clock 0 ops (new 2 : LRUCache.t string Z) = false /\
  h = ["d"; "b"; "c"] /\
  exists (size : nat) (live : list string),
    __len__ c = (Ok size, c) /\ __iter__ c = (Ok live, c) /\
    Z.of_nat size <= 2 /\
    live = reverse (take size h) /\
    size = Nat.min (Z.to_nat 2) (length h) /\
    live = reverse (take (Z.to_nat 2) h).
Proof.
  split; [lia|]. split; [reflexivity|]. split; [reflexivity|]. split; [reflexivity|].
  destruct (lru_size_and_recency (K:=string) (V:=Z) 2 (fun _ : nat => 0%float)
              [DelItem "z"; SetItem "a" 1; SetItem "b" 2; DelItem "a";
               SetItem "c" 3; GetItem "b"; SetItem "d" 4]
              (eq_refl : (0 ?= 2) = Lt))
    as (size & live & Hlen & Hiter & Hle & Hlive & _ & Hguard & _ & _).
  destruct (Hguard eq_refl) as [Hsize Hexact].
  exists size, live. repeat split; assumption.
Defined.

(** C1, as stated, fails once a delete is among the calls. With capacity 2,
    after [set a; set b; set c; delete c] the only live key is [b], while two
    distinct keys that were touched and not deleted remain ([b] and [a]); the
    live keys are not the 2 most recently touched distinct keys, whether the
    deleted key is dropped from the bookkeeping or kept in it. *)
Lemma lru_recency_delete_counterexample :
  let ops := [SetItem "a" 1; SetItem "b" 2; SetItem "c" 3; DelItem "c"] in
  let c := snd (run (fun _ => 0%float) 0 ops (new 2)) in
  dict.keys (data c) = ["b"] /\
  take 2 (recency (fun _ => 0%float) 0 ops (new 2) []) = ["b"; "a"] /\
  take 2 (recency_ever (fun _ => 0%float) 0 ops (new 2) []) = ["c"; "b"] /\
  ~ (dict.keys (data c) ≡ₚ take 2 (recency (fun _ => 0%float) 0 ops (new 2) [])) /\
  ~ (dict.keys (data c) ≡ₚ take 2 (recency_ever (fun _ => 0%float) 0 ops (new 2) [])).
Proof.
  vm_compute. repeat split; try reflexivity;
    intros Hp; apply Permutation_length in Hp; discriminate Hp.
Qed.

(** C4. Eviction removes the least recently used entry, and both get and set
    count as use: a set on a live key rewrites its value and moves it to the
    most recently used end, dropping nothing; a successful get moves its key
    to that end too; a set on a new key at full capacity drops the entry at
    the front, which in every cache built by [LRUCache(n)], [n > 0], is the
    live key touched least recently; and the two capacity-2 scenarios end
    with exactly [a, c] and exactly [b, c] live. *)
Theorem lru_eviction_policy :
  (forall (K V : Type) `(EqDecision K) (c : LRUCache.t K V) key value now,
     key ∈ dict.keys (data c) ->
     exists c', __setitem__ key value now c = (Ok tt, c') /\
       data c' = dict.remove key (data c) ++ [(key, (value, now))] /\
       (dict.wf (data c) -> length (data c') = length (data c)) /\
       (forall k, k ≠ key -> dict.lookup k (data c') = dict.lookup k (data c))) /\
  (forall (K V : Type) `(EqDecision K) (c : LRUCache.t K V) key value ts now,
     lru_inv c -> dict.lookup key (data c) = Some (value, ts) ->
     exists c', __getitem__ key now c = (Ok value, c') /\
       data c' = dict.remove key (data c) ++ [(key, (value, now))]) /\
  (forall (K V : Type) `(EqDecision K) (c : LRUCache.t K V) key value now lru rest,
     key ∉ dict.keys (data c) ->
     max_size c <= Z.of_nat (length (data c)) ->
     data c = lru :: rest ->
     exists c', __setitem__ key value now c = (Ok tt, c') /\
       data c' = rest ++ [(key, (value, now))]) /\
  (forall (K V : Type) `(EqDecision K) `(Repr K) `(Repr V) n clock
          (ops : list (op K V)) lru rest,
     0 < n ->
     let c := snd (run clock 0 ops (new n)) in
     let h := recency clock 0 ops (new n) [] in
     data c = lru :: rest ->
     last (take (length (data c)) h) = Some (fst lru)) /\
  (let ops := [SetItem "a" 1; SetItem "b" 2; GetItem "a"; SetItem "c" 3] in
   let c := snd (run (fun _ => 0%float) 0 ops (new 2)) in
   dict.keys (data c) = ["a"; "c"] /\ dict.contains "b" (data c) = false) /\
  (let ops := [SetItem "a" 1; SetItem "b" 2; SetItem "c" 3] in
   let c := snd (run (fun _ => 0%float) 0 ops (new 2)) in
   dict.keys (data c) = ["b"; "c"] /\ dict.contains "a" (data c) = false).
Proof.
  split; [|split; [|split; [|split; [|split]]]].
  - intros K V ? c key value now Hin. eexists. split; [by apply lru_setitem_present|].
    simpl. split; [done|]. split; [intros; by apply length_touch|].
    intros k Hne. rewrite lookup_app, lookup_remove_ne by done.
    destruct (dict.lookup k (data c)); [done|]. rewrite lookup_cons.
    by rewrite decide_False.
  - intros K V ? c key value ts now Hinv Hl.
    exists (set_data (dict.remove key (data c) ++ [(key, (value, now))]) c).
    split; [|done].
    apply (lru_getitem_present key now c value ts); [apply Hinv | | done].
    eapply lru_inv_present_bound; [done|]. apply contains_true, contains_lookup. eauto.
  - intros K V ? c key value now lru rest Hn Hge Hd. eexists.
    split; [by apply (lru_setitem_evict key value now c lru rest)|]. done.
  - intros K V ? ? ? n clock ops lru rest Hpos c h Hd.
    assert (recency_inv c h) as (Hnd & Hle & older & Hh).
    { apply recency_inv_run; [done | apply recency_inv_new; lia]. }
    rewrite Hh, take_app_length'
      by (rewrite length_reverse; unfold dict.keys; by rewrite length_fmap).
    rewrite Hd. unfold dict.keys. rewrite fmap_cons, reverse_cons.
    apply last_snoc.
  - by vm_compute.
  - by vm_compute.
Qed.

Lemma lru_eviction_policy_witness :
  let c : LRUCache.t string Z :=
    {| max_size := 2; data := [("a", (1, 0%float)); ("b", (2, 1%float))] |} in
  exists c', __setitem__ "c" 3 2%float c = (Ok tt, c') /\
    data c' = [("b", (2, 1%float))] ++ [("c", (3, 2%float))].
Proof.
  apply (proj1 (proj2 (proj2 lru_eviction_policy)) string Z _
           {| max_size := 2; data := [("a", (1, 0%float)); ("b", (2, 1%float))] |}
           "c" 3 2%float ("a", (1, 0%float)) [("b", (2, 1%float))]).
  - vm_compute. intros Hin. repeat (apply elem_of_cons in Hin as [Hin|Hin]; [discriminate Hin|]).
    by apply elem_of_nil in Hin.
  - vm_compute. discriminate.
  - reflexivity.
Defined.

(** C8, as the code has it: on every cache built by [LRUCache(n)] with
    [n > 0] and then used through any sequence of calls, a set of any key and
    value returns normally. *)
Theorem lru_setitem_total {K V : Type} `{EqDecision K} `{Repr K, Repr V}
    (n : Z) (clock : nat -> float) (ops : list (op K V))
    (key : K) (value : V) (now : float) :
  0 < n ->
  fst (__setitem__ key value now (snd (run clock 0 ops (new n)))) = Ok tt.
Proof.
  intros Hpos. pose proof (max_size_run clock ops 0 (new n : LRUCache.t K V)) as Hmax.
  simpl in Hmax.
  destruct (lru_setitem_cases key value now (snd (run clock 0 ops (new n))))
    as [(_ & ->)|[(_ & _ & ->)|[(_ & _ & x & d' & _ & ->)|(Hle & _ & _)]]];
    [done | done | done | lia].
Qed.

Lemma lru_setitem_total_witness :
  0 < 2 /\
  fst (__setitem__ "c" 3 9%float
         (snd (run (fun _ => 0%float) 0 [SetItem "a" 1; SetItem "b" 2; GetItem "a"]
                 (new 2)))) = Ok tt.
Proof.
  split; [lia|].
  apply (lru_setitem_total (K:=string) (V:=Z) 2 (fun _ => 0%float)
           [SetItem "a" 1; SetItem "b" 2; GetItem "a"] "c" 3 9%float).
  lia.
Defined.

(** C8, as stated, fails: [LRUCache(0)] is constructed without complaint, and
    the first set on it raises [KeyError] (from [popitem] on the empty
    dictionary), leaving the cache empty. *)
Lemma lru_setitem_zero_capacity_counterexample :
  LRUCache.__init__ (K:=string) (V:=Z) 0 = Ok (new 0) /\
  __setitem__ "a" 1 0%float (new 0 : LRUCache.t string Z) = (Raise KeyError, new 0).
Proof. split; reflexivity. Qed.

(** C10. The clock never shows in what an LRUCache does: two runs of the
    same calls on caches of the same [max_size], under any two clocks, give
    the same results call by call (values, [KeyError]s, sizes, iteration
    orders, renderings) and end in caches that differ at most in their
    timestamps; more generally the same holds from any two caches that
    differ only in their timestamps, so no method reads a timestamp. *)
Theorem lru_clock_independent {K V : Type} `{EqDecision K} `{Repr K, Repr V} :
  (forall (n : Z) (ops : list (op K V)) (clock1 clock2 : nat -> float),
     fst (run clock1 0 ops (new n)) = fst (run clock2 0 ops (new n)) /\
     erase (snd (run clock1 0 ops (new n))) = erase (snd (run clock2 0 ops (new n)))) /\
  (forall (ops : list (op K V)) (clock1 clock2 : nat -> float) (i1 i2 : nat)
          (c1 c2 : LRUCache.t K V),
     erase c1 = erase c2 ->
     fst (run clock1 i1 ops c1) = fst (run clock2 i2 ops c2) /\
     erase (snd (run clock1 i1 ops c1)) = erase (snd (run clock2 i2 ops c2))).
Proof.
  split.
  - intros n ops clock1 clock2. by apply run_erase.
  - intros ops clock1 clock2 i1 i2 c1 c2 He. by apply run_erase.
Qed.

Lemma lru_clock_independent_witness :
  let ops := [GetItem "a"; SetItem "b" 2; SetItem "c" 3; ReprOf; Iter; Len; Get "a" None] in
  let c1 : LRUCache.t string Z := {| max_size := 2; data := [("a", (1, 5%float))] |} in
  let c2 : LRUCache.t string Z := {| max_size := 2; data := [("a", (1, 77%float))] |} in
  fst (run (fun _ => 1%float) 0 ops c1) = fst (run (fun _ => 1000%float) 3 ops c2) /\
  erase (snd (run (fun _ => 1%float) 0 ops c1)) =
  erase (snd (run (fun _ => 1000%float) 3 ops c2)).
Proof.
  apply (proj2 (lru_clock_independent (K:=string) (V:=Z))
           [GetItem "a"; SetItem "b" 2; SetItem "c" 3; ReprOf; Iter; Len; Get "a" None]
           (fun _ => 1%float) (fun _ => 1000%float) 0%nat 3%nat
           {| max_size := 2; data := [("a", (1, 5%float))] |}
           {| max_size := 2; data := [("a", (1, 77%float))] |}).
  reflexivity.
Defined.
End lru_properties.

(** * Properties of TTLCache *)
Section ttl_properties.
Import TTLCache.

(** C2. A get returns the stored value exactly when the key is present and
    [now - timestamp <= ttl] holds at the check, and then leaves the cache as
    it was; on a present but stale key it removes the entry and raises
    [KeyError]; on an absent key it raises [KeyError]; the defaulting variant
    gives the default in both failure cases; so a returned value never comes
    from an entry whose age exceeds [ttl]. *)
Theorem ttl_getitem_spec {K V : Type} `{EqDecision K}
    (c : TTLCache.t K V) (key : K) (default : option V) (now : float) :
  (forall v, fst (__getitem__ key now c) = Ok v <->
     exists ts, dict.lookup key (_data c) = Some (v, ts) /\
       float_le (PrimFloat.sub now ts) (_ttl c) = true) /\
  (forall v ts, dict.lookup key (_data c) = Some (v, ts) ->
     float_le (PrimFloat.sub now ts) (_ttl c) = true ->
     __getitem__ key now c = (Ok v, c) /\
     get key default now c = (Ok (Some v), c)) /\
  (forall v ts, dict.lookup key (_data c) = Some (v, ts) ->
     float_le (PrimFloat.sub now ts) (_ttl c) = false ->
     let c' := set_data (dict.remove key (_data c)) c in
     __getitem__ key now c = (Raise KeyError, c') /\
     get key default now c = (Ok default, c') /\
     dict.lookup key (_data c') = None) /\
  (dict.lookup key (_data c) = None ->
     __getitem__ key now c = (Raise KeyError, c) /\
     get key default now c = (Ok default, c)) /\
  (forall v, fst (__getitem__ key now c) = Ok v ->
     exists ts, dict.lookup key (_data c) = Some (v, ts) /\
       expired now (_ttl c) ts = false).
Proof.
  assert (forall v, fst (__getitem__ key now c) = Ok v <->
     exists ts, dict.lookup key (_data c) = Some (v, ts) /\
       float_le (PrimFloat.sub now ts) (_ttl c) = true) as Hiff.
  { intros v. destruct (dict.lookup key (_data c)) as [[v' ts]|] eqn:Hl.
    - destruct (float_le (PrimFloat.sub now ts) (_ttl c)) eqn:Hf.
      + rewrite (ttl_getitem_fresh key now c v' ts Hl Hf). simpl. split.
        * intros [= ->]. eauto.
        * intros (ts' & [= -> ->] & _). done.
      + rewrite (ttl_getitem_stale key now c v' ts Hl Hf). simpl. split; [done|].
        intros (ts' & [= -> ->] & Hf'). congruence.
    - rewrite (ttl_getitem_absent key now c Hl). simpl. split; [done|].
      intros (ts' & ? & _). done. }
  split; [exact Hiff|]. split; [|split; [|split]].
  - intros v ts Hl Hf. unfold get, try_except, mbind, M_bind.
    by rewrite (ttl_getitem_fresh key now c v ts Hl Hf).
  - intros v ts Hl Hf c'. unfold get, try_except, mbind, M_bind.
    rewrite (ttl_getitem_stale key now c v ts Hl Hf). split; [done|]. split; [done|].
    apply lookup_remove_eq.
  - intros Hl. unfold get, try_except, mbind, M_bind.
    by rewrite (ttl_getitem_absent key now c Hl).
  - intros v Hv. apply Hiff in Hv as (ts & Hl & Hf). exists ts. split; [done|].
    by apply float_le_not_gt.
Qed.

Lemma ttl_getitem_spec_witness :
  let c : TTLCache.t string Z :=
    {| _ttl := 60%float; _data := [("a", (1, 10%float)); ("b", (2, 50%float))] |} in
  (__getitem__ "b" 100%float c = (Ok 2, c) /\
   get "b" None 100%float c = (Ok (Some 2), c)) /\
  (let c' := set_data (dict.remove "a" (_data c)) c in
   __getitem__ "a" 100%float c = (Raise KeyError, c') /\
   get "a" (Some 7) 100%float c = (Ok (Some 7), c') /\
   dict.lookup "a" (_data c') = None).
Proof.
  split.
  - apply (proj1 (proj2 (ttl_getitem_spec
             {| _ttl := 60%float; _data := [("a", (1, 10%float)); ("b", (2, 50%float))] |}
             "b" None 100%float)) 2 50%float); reflexivity.
  - apply (proj1 (proj2 (proj2 (ttl_getitem_spec
             {| _ttl := 60%float; _data := [("a", (1, 10%float)); ("b", (2, 50%float))] |}
             "a" (Some 7) 100%float))) 1 10%float); reflexivity.
Defined.

(** C5. On a cache whose dictionary is well formed (as it is in every cache
    built by [TTLCache(ttl)] and used through its methods, [ttl_wf_run]),
    [size()] sweeps first:
    with the clock read once, it removes exactly the entries whose age
    exceeds [ttl], keeps every other entry with its value, timestamp and
    place, and returns how many remain; [iterate()] and [describe()] do the
    same sweep before listing the keys or rendering, so neither the count,
    the keys nor the rendering includes an expired entry. *)
Theorem ttl_sweep_spec {K V : Type} `{EqDecision K} `{Repr K, Repr V}
    (c : TTLCache.t K V) (now : float) :
  dict.wf (_data c) ->
  let live := unexpired now (_ttl c) (_data c) in
  let c' := set_data live c in
  _expire_all now c = (Ok tt, c') /\
  __len__ now c = (Ok (length live), c') /\
  __iter__ now c = (Ok (dict.keys live), c') /\
  __repr__ now c = (Ok ("TTLCache({ " +:+ render live +:+ " })"), c') /\
  (forall k v ts, dict.lookup k live = Some (v, ts) <->
     dict.lookup k (_data c) = Some (v, ts) /\ expired now (_ttl c) ts = false) /\
  (forall k v ts, (k, (v, ts)) ∈ live -> expired now (_ttl c) ts = false) /\
  live `sublist_of` _data c /\
  dict.wf live.
Proof.
  intros Hwf live c'. pose proof (expire_all_spec now c Hwf) as He.
  fold live in He. fold c' in He.
  split; [exact He|]. split; [|split; [|split; [|split; [|split; [|split]]]]].
  - unfold __len__, mbind, M_bind. by rewrite He.
  - unfold __iter__, mbind, M_bind. by rewrite He.
  - unfold __repr__, mbind, M_bind. by rewrite He.
  - intros k v ts. by apply lookup_unexpired.
  - intros k v ts Hin. by apply list_elem_of_filter in Hin as [Hx _].
  - apply sublist_filter.
  - by apply wf_unexpired.
Qed.

Lemma ttl_sweep_spec_witness :
  let c : TTLCache.t string Z :=
    {| _ttl := 60%float;
       _data := [("a", (1, 10%float)); ("b", (2, 50%float)); ("c", (3, 39%float))] |} in
  dict.wf (_data c) /\
  __len__ 100%float c =
    (Ok 1%nat, {| _ttl := 60%float; _data := [("b", (2, 50%float))] |}) /\
  __iter__ 100%float c =
    (Ok ["b"], {| _ttl := 60%float; _data := [("b", (2, 50%float))] |}) /\
  __repr__ 100%float c =
    (Ok "TTLCache({ 'b': 2 })", {| _ttl := 60%float; _data := [("b", (2, 50%float))] |}).
Proof.
  assert (dict.wf [("a", (1%Z, 10%float)); ("b", (2%Z, 50%float)); ("c", (3%Z, 39%float))])
    as Hwf.
  { unfold dict.wf. apply (bool_decide_unpack _). vm_compute. exact I. }
  split; [exact Hwf|].
  pose proof (ttl_sweep_spec
    {| _ttl := 60%float;
       _data := [("a", (1%Z, 10%float)); ("b", (2%Z, 50%float)); ("c", (3%Z, 39%float))] |}
    100%float Hwf) as (_ & Hlen & Hiter & Hrepr & _).
  split; [exact Hlen|]. split; [exact Hiter | exact Hrepr].
Defined.

(** C6. A set on a key that is already there overwrites the value and
    stamps the entry with the time of this set: after [set(a, 1)] at [t1] and
    [set(a, 2)] at [t2], the entry of [a] is [(2, t2)], and a get at any
    [now] with [now - t2 <= ttl] returns 2. *)
Theorem ttl_set_refreshes {K V : Type} `{EqDecision K}
    (c : TTLCache.t K V) (key : K) (v1 v2 : V) (t1 t2 now : float) :
  let c1 := snd (__setitem__ key v1 t1 c) in
  let c2 := snd (__setitem__ key v2 t2 c1) in
  float_le (PrimFloat.sub now t2) (_ttl c) = true ->
  fst (__setitem__ key v1 t1 c) = Ok tt /\
  fst (__setitem__ key v2 t2 c1) = Ok tt /\
  dict.lookup key (_data c1) = Some (v1, t1) /\
  dict.lookup key (_data c2) = Some (v2, t2) /\
  dict.keys (_data c2) = dict.keys (_data c1) /\
  _ttl c2 = _ttl c /\
  __getitem__ key now c2 = (Ok v2, c2).
Proof.
  intros c1 c2 Hf.
  assert (dict.lookup key (_data c2) = Some (v2, t2)) as Hl2
    by apply lookup_setitem_eq.
  assert (dict.lookup key (_data c1) = Some (v1, t1)) as Hl1
    by apply lookup_setitem_eq.
  split; [done|]. split; [done|]. split; [done|]. split; [done|].
  split; [|split; [done|]].
  - apply keys_setitem_present. apply contains_true, contains_lookup. eauto.
  - by apply (ttl_getitem_fresh key now c2 v2 t2).
Qed.

Lemma ttl_set_refreshes_witness :
  let c : TTLCache.t string Z := {| _ttl := 60%float; _data := [] |} in
  let c1 := snd (__setitem__ "a" 1 0%float c) in
  let c2 := snd (__setitem__ "a" 2 50%float c1) in
  float_le (PrimFloat.sub 100 50) 60 = true /\
  float_le (PrimFloat.sub 100 0) 60 = false /\
  dict.lookup "a" (_data c2) = Some (2, 50%float) /\
  __getitem__ "a" 100%float c2 = (Ok 2, c2).
Proof.
  split; [reflexivity|]. split; [reflexivity|].
  pose proof (ttl_set_refreshes (K:=string) (V:=Z)
    {| _ttl := 60%float; _data := [] |} "a" 1 2 0%float 50%float 100%float eq_refl)
    as (_ & _ & _ & Hl & _ & _ & Hg).
  split; [exact Hl | exact Hg].
Defined.

(** C7. A delete succeeds and removes the entry whenever the key is in the
    underlying dictionary, whatever the age of the entry (no clock is read);
    it raises [KeyError] exactly when the key is not in the dictionary, and
    then changes nothing; after a successful delete, [contains(key)] is
    false at any time, and the other entries are as before. *)
Theorem ttl_delitem_spec {K V : Type} `{EqDecision K} (c : TTLCache.t K V) (key : K) :
  (forall v ts, dict.lookup key (_data c) = Some (v, ts) ->
     exists c', __delitem__ key c = (Ok tt, c') /\
       dict.lookup key (_data c') = None /\
       (forall k, k ≠ key -> dict.lookup k (_data c') = dict.lookup k (_data c)) /\
       (forall now, __contains__ key now c' = (Ok false, c'))) /\
  (fst (__delitem__ key c) = Raise KeyError <-> dict.lookup key (_data c) = None) /\
  (dict.lookup key (_data c) = None -> __delitem__ key c = (Raise KeyError, c)).
Proof.
  split; [|split].
  - intros v ts Hl. exists (set_data (dict.remove key (_data c)) c).
    split; [by apply (ttl_delitem_present key c v ts)|].
    split; [apply lookup_remove_eq|].
    split; [intros k Hne; by apply lookup_remove_ne|].
    intros now. apply ttl_contains_absent. apply lookup_remove_eq.
  - destruct (dict.lookup key (_data c)) as [[v ts]|] eqn:Hl.
    + rewrite (ttl_delitem_present key c v ts Hl). simpl. split; done.
    + rewrite (ttl_delitem_absent key c Hl). simpl. split; done.
  - apply ttl_delitem_absent.
Qed.

Lemma ttl_delitem_spec_witness :
  let c : TTLCache.t string Z :=
    {| _ttl := 60%float; _data := [("a", (1, 10%float)); ("b", (2, 50%float))] |} in
  exists c', __delitem__ "a" c = (Ok tt, c') /\
    dict.lookup "a" (_data c') = None /\
    (forall k, k ≠ "a" -> dict.lookup k (_data c') = dict.lookup k (_data c)) /\
    (forall now, __contains__ "a" now c' = (Ok false, c')).
Proof.
  apply (proj1 (ttl_delitem_spec
           {| _ttl := 60%float; _data := [("a", (1, 10%float)); ("b", (2, 50%float))] |}
           "a") 1 10%float).
  reflexivity.
Defined.
End ttl_properties.

(** * Properties of both caches *)
Section both_caches.

(** C3, as the code has it: neither constructor validates its argument. For
    every [max_size] and every [ttl], positive or not, construction returns
    normally with an empty cache that holds the argument as given. *)
Theorem constructors_accept_any_argument {K V : Type} `{EqDecision K} :
  (forall n : Z,
     exists c : LRUCache.t K V,
       LRUCache.__init__ n = Ok c /\ LRUCache.max_size c = n /\
       LRUCache.__len__ c = (Ok 0%nat, c)) /\
  (forall ttl now : float,
     exists c : TTLCache.t K V,
       TTLCache.__init__ ttl = Ok c /\ TTLCache._ttl c = ttl /\
       TTLCache.__len__ now c = (Ok 0%nat, c)).
Proof.
  split.
  - intros n. by exists (LRUCache.new n).
  - intros ttl now. by exists (TTLCache.new ttl).
Qed.

(** C3, as stated, fails: [LRUCache(0)], [LRUCache(-1)], [TTLCache(0.0)] and
    [TTLCache(-1.0)] are all constructed; no constructor raises. *)
Lemma constructors_reject_nothing_counterexample :
  LRUCache.__init__ (K:=string) (V:=Z) 0 = Ok (LRUCache.new 0) /\
  LRUCache.__init__ (K:=string) (V:=Z) (-1) = Ok (LRUCache.new (-1)) /\
  TTLCache.__init__ (K:=string) (V:=Z) 0%float = Ok (TTLCache.new 0%float) /\
  TTLCache.__init__ (K:=string) (V:=Z) (-1)%float = Ok (TTLCache.new (-1)%float) /\
  ~ (exists e, LRUCache.__init__ (K:=string) (V:=Z) 0 = Raise e) /\
  ~ (exists e, TTLCache.__init__ (K:=string) (V:=Z) 0%float = Raise e).
Proof.
  repeat split; try reflexivity; intros [e He]; discriminate He.
Qed.

(** C9. Round trip. LRUCache: on every cache built by [LRUCache(n)] and
    used through any calls, a set of [k] to [v] that returns is followed by a
    get of [k] that returns [v] (no eviction can fall between the two).
    TTLCache: on every cache, a set of [k] to [v] at [t1] followed by a get of
    [k] at [t2] with [t2 - t1 <= ttl] returns [v]. *)
Theorem set_get_roundtrip {K V : Type} `{EqDecision K} `{Repr K, Repr V} :
  (forall (n : Z) (clock : nat -> float) (ops : list (LRUCache.op K V))
          (key : K) (value : V) (t1 t2 : float) (c' : LRUCache.t K V),
     LRUCache.__setitem__ key value t1
       (snd (LRUCache.run clock 0 ops (LRUCache.new n))) = (Ok tt, c') ->
     fst (LRUCache.__getitem__ key t2 c') = Ok value) /\
  (forall (c : LRUCache.t K V) (key : K) (value : V) (t1 t2 : float),
     0 < LRUCache.max_size c -> lru_inv c ->
     fst (LRUCache.__getitem__ key t2
            (snd (LRUCache.__setitem__ key value t1 c))) = Ok value) /\
  (forall (c : TTLCache.t K V) (key : K) (value : V) (t1 t2 : float),
     float_le (PrimFloat.sub t2 t1) (TTLCache._ttl c) = true ->
     fst (TTLCache.__getitem__ key t2
            (snd (TTLCache.__setitem__ key value t1 c))) = Ok value).
Proof.
  split; [|split].
  - intros n clock ops key value t1 t2 c' Hset.
    assert (lru_inv (snd (LRUCache.run clock 0 ops (LRUCache.new n)))) as Hinv.
    { apply (reachable_inv n). apply run_reachable. constructor. }
    destruct (lru_set_then_get key value t1 t2 _ c' Hinv Hset) as [c'' ->]. done.
  - intros c key value t1 t2 Hpos Hinv.
    destruct (LRUCache.__setitem__ key value t1 c) as [[[]|e] c'] eqn:Hset.
    + simpl. destruct (lru_set_then_get key value t1 t2 c c' Hinv Hset) as [c'' ->]. done.
    + exfalso. destruct (lru_setitem_cases key value t1 c)
        as [(_ & He)|[(_ & _ & He)|[(_ & _ & x & d' & _ & He)|(Hle & _ & _)]]];
        [congruence | congruence | congruence | lia].
  - intros c key value t1 t2 Hf.
    rewrite (ttl_getitem_fresh key t2 _ value t1); [done | | done].
    apply lookup_setitem_eq.
Qed.

Lemma set_get_roundtrip_witness :
  (forall c',
     LRUCache.__setitem__ "c" 3 7%float
       (snd (LRUCache.run (fun _ => 0%float) 0
               [LRUCache.SetItem "a" 1; LRUCache.SetItem "b" 2] (LRUCache.new 2)))
     = (Ok tt, c') ->
     fst (LRUCache.__getitem__ "c" 8%float c') = Ok 3) /\
  LRUCache.__setitem__ "c" 3 7%float
    (snd (LRUCache.run (fun _ => 0%float) 0
            [LRUCache.SetItem "a" 1; LRUCache.SetItem "b" 2] (LRUCache.new 2)))
  = (Ok tt, {| LRUCache.max_size := 2;
               LRUCache.data := [("b", (2, 0%float)); ("c", (3, 7%float))] |}) /\
  float_le (PrimFloat.sub 40 10) 60 = true /\
  fst (TTLCache.__getitem__ "a" 40%float
         (snd (TTLCache.__setitem__ "a" 1 10%float
                 ({| TTLCache._ttl := 60%float; TTLCache._data := [] |}
                  : TTLCache.t string Z)))) = Ok 1.
Proof.
  split; [|split; [reflexivity|split; [reflexivity|]]].
  - intros c'.
    apply (proj1 (set_get_roundtrip (K:=string) (V:=Z)) 2 (fun _ => 0%float)
             [LRUCache.SetItem "a" 1; LRUCache.SetItem "b" 2] "c" 3 7%float 8%float c').
  - apply (proj2 (proj2 (set_get_roundtrip (K:=string) (V:=Z)))
             {| TTLCache._ttl := 60%float; TTLCache._data := [] |} "a" 1 10%float 40%float).
    reflexivity.
Defined.
End both_caches.

(** * Further properties of LRUCache *)
Section lru_further.
Import LRUCache.

Lemma lru_set_data_id {K V : Type} (c : LRUCache.t K V) : set_data (data c) c = c.
Proof. by destruct c. Qed.

(** what a set that returns leaves behind: its key last, once *)
Lemma lru_setitem_shape {K V : Type} `{EqDecision K}
    (key : K) (value : V) (now : float) (c c' : LRUCache.t K V) :
  __setitem__ key value now c = (Ok tt, c') ->
  max_size c' = max_size c /\
  exists d, data c' = d ++ [(key, (value, now))] /\ key ∉ dict.keys d.
Proof.
  intros Hset.
  destruct (lru_setitem_cases key value now c)
    as [(Hin & He)|[(Hn & Hlt & He)|[(Hn & Hge & x & d' & Hd & He)|(Hle & Hd & He)]]];
    rewrite He in Hset; [| | |done]; injection Hset as <-; simpl; (split; [done|]).
  - eexists. split; [done|]. rewrite keys_remove, list_elem_of_filter. tauto.
  - eexists. by split.
  - eexists. split; [done|]. rewrite Hd in Hn. unfold dict.keys in Hn |- *.
    rewrite fmap_cons, not_elem_of_cons in Hn. tauto.
Qed.

(** X1. The defaulting [get] of LRUCache, on a cache that satisfies the class
    invariant: a hit returns the stored value and promotes the key exactly as
    [__getitem__] does; a miss returns the caller's default and leaves the
    cache, order included, as it was; it never raises. *)
Theorem lru_get_default_spec {K V : Type} `{EqDecision K}
    (c : LRUCache.t K V) (key : K) (default : option V) (now : float) :
  lru_inv c ->
  (forall v ts, dict.lookup key (data c) = Some (v, ts) ->
     let c' := set_data (dict.remove key (data c) ++ [(key, (v, now))]) c in
     get key default now c = (Ok (Some v), c') /\
     __getitem__ key now c = (Ok v, c')) /\
  (dict.lookup key (data c) = None ->
     get key default now c = (Ok default, c) /\
     __getitem__ key now c = (Raise KeyError, c)) /\
  (exists r, fst (get key default now c) = Ok r).
Proof.
  intros Hinv.
  assert (forall v ts, dict.lookup key (data c) = Some (v, ts) ->
            Z.of_nat (length (data c)) <= max_size c) as Hb.
  { intros v ts Hl. eapply lru_inv_present_bound; [done|].
    apply contains_true, contains_lookup. eauto. }
  split; [|split].
  - intros v ts Hl c'. split.
    + apply (lru_get_present key default now c v ts); [apply Hinv | by eapply Hb | done].
    + apply (lru_getitem_present key now c v ts); [apply Hinv | by eapply Hb | done].
  - intros Hl. apply lookup_None in Hl. split.
    + by apply lru_get_absent.
    + by apply lru_getitem_absent.
  - destruct (dict.lookup key (data c)) as [[v ts]|] eqn:Hl.
    + rewrite (lru_get_present key default now c v ts);
        [by eexists | apply Hinv | by eapply Hb | done].
    + apply lookup_None in Hl. rewrite lru_get_absent by done. by eexists.
Qed.

Lemma lru_get_default_spec_witness :
  let c : LRUCache.t string Z :=
    {| max_size := 2; data := [("a", (1, 0%float)); ("b", (2, 1%float))] |} in
  lru_inv c /\
  get "a" None 5%float c =
    (Ok (Some 1), {| max_size := 2; data := [("b", (2, 1%float)); ("a", (1, 5%float))] |}) /\
  get "z" (Some 9) 5%float c = (Ok (Some 9), c).
Proof.
  assert (lru_inv ({| max_size := 2; data := [("a", (1, 0%float)); ("b", (2, 1%float))] |}
                   : LRUCache.t string Z)) as Hinv.
  { split; [|right; simpl; lia].
    unfold dict.wf. apply (bool_decide_unpack _). vm_compute. exact I. }
  split; [exact Hinv|].
  pose proof (lru_get_default_spec
    ({| max_size := 2; data := [("a", (1, 0%float)); ("b", (2, 1%float))] |}
     : LRUCache.t string Z) "a" None 5%float Hinv) as (Hhit & _ & _).
  pose proof (lru_get_default_spec
    ({| max_size := 2; data := [("a", (1, 0%float)); ("b", (2, 1%float))] |}
     : LRUCache.t string Z) "z" (Some 9) 5%float Hinv) as (_ & Hmiss & _).
  split.
  - exact (proj1 (Hhit 1 0%float eq_refl)).
  - exact (proj1 (Hmiss eq_refl)).
Defined.

(** X2. [__delitem__] of LRUCache: on a live key it returns normally, the key
    is gone, every other key keeps its entry and its place in the order, and
    the size drops by one; on a key that is not live it raises [KeyError] and
    changes nothing; it raises exactly when the key is not live. *)
Theorem lru_delitem_spec {K V : Type} `{EqDecision K}
    (c : LRUCache.t K V) (key : K) :
  dict.wf (data c) ->
  (key ∈ dict.keys (data c) ->
     exists c', __delitem__ key c = (Ok tt, c') /\
       max_size c' = max_size c /\
       dict.lookup key (data c') = None /\
       (forall k, k ≠ key -> dict.lookup k (data c') = dict.lookup k (data c)) /\
       dict.keys (data c') = filter (fun k => k ≠ key) (dict.keys (data c)) /\
       S (length (data c')) = length (data c) /\
       __contains__ key c' = (Ok false, c')) /\
  (key ∉ dict.keys (data c) -> __delitem__ key c = (Raise KeyError, c)) /\
  (fst (__delitem__ key c) = Raise KeyError <-> key ∉ dict.keys (data c)).
Proof.
  intros Hwf. split; [|split].
  - intros Hin. exists (set_data (dict.remove key (data c)) c).
    split; [by apply lru_delitem_present|]. simpl. split; [done|].
    split; [apply lookup_remove_eq|].
    split; [intros k Hne; by apply lookup_remove_ne|].
    split; [apply keys_remove|].
    split; [by apply length_remove_present|].
    unfold __contains__, gets. simpl. f_equal. f_equal.
    apply contains_false. rewrite keys_remove, list_elem_of_filter. tauto.
  - apply lru_delitem_absent.
  - destruct (decide (key ∈ dict.keys (data c))) as [Hin|Hn].
    + rewrite lru_delitem_present by done. simpl. split; [done | tauto].
    + rewrite lru_delitem_absent by done. simpl. split; done.
Qed.

Lemma lru_delitem_spec_witness :
  let c : LRUCache.t string Z :=
    {| max_size := 3;
       data := [("a", (1, 0%float)); ("b", (2, 1%float)); ("c", (3, 2%float))] |} in
  dict.wf (data c) /\
  exists c', __delitem__ "b" c = (Ok tt, c') /\
    dict.keys (data c') = filter (fun k => k ≠ "b") (dict.keys (data c)) /\
    S (length (data c')) = length (data c).
Proof.
  assert (dict.wf [("a", (1%Z, 0%float)); ("b", (2%Z, 1%float)); ("c", (3%Z, 2%float))])
    as Hwf.
  { unfold dict.wf. apply (bool_decide_unpack _). vm_compute. exact I. }
  split; [exact Hwf|].
  assert ("b" ∈ dict.keys [("a", (1%Z, 0%float)); ("b", (2%Z, 1%float)); ("c", (3%Z, 2%float))])
    as Hin.
  { apply (bool_decide_unpack _). vm_compute. exact I. }
  destruct (proj1 (lru_delitem_spec
    ({| max_size := 3;
        data := [("a", (1, 0%float)); ("b", (2, 1%float)); ("c", (3, 2%float))] |}
     : LRUCache.t string Z) "b" Hwf) Hin)
    as (c' & Hdel & _ & _ & _ & Hkeys & Hlen & _).
  exists c'. split; [exact Hdel|]. split; [exact Hkeys | exact Hlen].
Defined.

(** X3. [__contains__] of LRUCache is a pure test: it answers whether the key
    is live, which is exactly whether [__getitem__] would return, and unlike
    a get it leaves the cache and its recency order untouched. *)
Theorem lru_contains_pure {K V : Type} `{EqDecision K}
    (c : LRUCache.t K V) (key : K) (now : float) :
  lru_inv c ->
  exists b, __contains__ key c = (Ok b, c) /\
    (b = true <-> key ∈ dict.keys (data c)) /\
    (b = true <-> exists v, fst (__getitem__ key now c) = Ok v) /\
    (b = false <-> fst (__getitem__ key now c) = Raise KeyError).
Proof.
  intros Hinv. exists (dict.contains key (data c)).
  split; [done|]. split; [apply contains_true|].
  destruct (dict.lookup key (data c)) as [[v ts]|] eqn:Hl.
  - assert (dict.contains key (data c) = true) as Hc by (apply contains_lookup; eauto).
    rewrite Hc.
    rewrite (lru_getitem_present key now c v ts);
      [| apply Hinv | eapply lru_inv_present_bound; [done | by apply contains_true] | done].
    simpl. split; [split; [by eexists | done] | split; done].
  - apply lookup_None in Hl.
    rewrite (proj2 (contains_false key (data c)) Hl), lru_getitem_absent by done.
    simpl. split; [split; [done | by intros [v ?]] | split; done].
Qed.

Lemma lru_contains_pure_witness :
  let c : LRUCache.t string Z :=
    {| max_size := 2; data := [("a", (1, 0%float)); ("b", (2, 1%float))] |} in
  lru_inv c /\
  exists b, __contains__ "a" c = (Ok b, c) /\
    (b = true <-> "a" ∈ dict.keys (data c)) /\
    (b = true <-> exists v, fst (__getitem__ "a" 5%float c) = Ok v) /\
    (b = false <-> fst (__getitem__ "a" 5%float c) = Raise KeyError).
Proof.
  assert (lru_inv ({| max_size := 2; data := [("a", (1, 0%float)); ("b", (2, 1%float))] |}
                   : LRUCache.t string Z)) as Hinv.
  { split; [|right; simpl; lia].
    unfold dict.wf. apply (bool_decide_unpack _). vm_compute. exact I. }
  split; [exact Hinv|].
  exact (lru_contains_pure
    ({| max_size := 2; data := [("a", (1, 0%float)); ("b", (2, 1%float))] |}
     : LRUCache.t string Z) "a" 5%float Hinv).
Defined.

Lemma touch_keys_Permutation {K : Type} `{EqDecision K} (k : K) (l : list K) :
  NoDup l -> k ∈ l -> filter (fun x => x ≠ k) l ++ [k] ≡ₚ l.
Proof.
  intros Hnd Hin. apply NoDup_Permutation; [|done|].
  - apply NoDup_app. split; [by apply NoDup_filter|]. split; [|apply NoDup_singleton].
    intros x Hx Hx'. apply list_elem_of_filter in Hx as [Hne _].
    by apply list_elem_of_singleton in Hx'.
  - intros x. rewrite elem_of_app, list_elem_of_filter, list_elem_of_singleton.
    destruct (decide (x = k)) as [->|Hne]; tauto.
Qed.

(** X4. Reading is idempotent on LRUCache: two gets of a live key in a row
    both return its value; the second changes neither the order of the keys
    nor any other entry; the size and the set of live keys are those before
    the first get. *)
Theorem lru_get_idempotent {K V : Type} `{EqDecision K}
    (c : LRUCache.t K V) (key : K) (v : V) (ts t1 t2 : float) :
  lru_inv c ->
  dict.lookup key (data c) = Some (v, ts) ->
  let c1 := snd (__getitem__ key t1 c) in
  let c2 := snd (__getitem__ key t2 c1) in
  fst (__getitem__ key t1 c) = Ok v /\
  fst (__getitem__ key t2 c1) = Ok v /\
  dict.keys (data c2) = dict.keys (data c1) /\
  dict.keys (data c1) ≡ₚ dict.keys (data c) /\
  length (data c2) = length (data c) /\
  (forall k, k ≠ key -> dict.lookup k (data c2) = dict.lookup k (data c)).
Proof.
  intros Hinv Hl c1 c2.
  assert (key ∈ dict.keys (data c)) as Hin
    by (apply contains_true, contains_lookup; eauto).
  pose proof (lru_inv_present_bound c key Hinv Hin) as Hb.
  destruct Hinv as [Hwf Hcap].
  assert (key ∉ dict.keys (dict.remove key (data c))) as Hn
    by (rewrite keys_remove, list_elem_of_filter; tauto).
  pose proof (lru_getitem_present key t1 c v ts Hwf Hb Hl) as H1.
  assert (c1 = set_data (dict.remove key (data c) ++ [(key, (v, t1))]) c) as Hc1
    by (unfold c1; by rewrite H1).
  assert (dict.lookup key (data c1) = Some (v, t1)) as Hl1
    by (rewrite Hc1; simpl; by apply lookup_snoc).
  assert (__getitem__ key t2 c1 =
          (Ok v, set_data (dict.remove key (data c) ++ [(key, (v, t2))]) c)) as H2.
  { rewrite (lru_getitem_present key t2 c1 v t1); [| | |done].
    - rewrite Hc1. simpl. by rewrite remove_snoc.
    - rewrite Hc1. simpl. by apply wf_touch.
    - rewrite Hc1. simpl. rewrite length_touch by done. exact Hb. }
  split; [by rewrite H1|]. split; [by rewrite H2|].
  unfold c2. rewrite H2, Hc1. simpl.
  split; [by rewrite !keys_snoc|].
  split; [rewrite keys_snoc, keys_remove; by apply touch_keys_Permutation|].
  split; [by apply length_touch|].
  intros k Hne. rewrite lookup_app, lookup_remove_ne by done.
  destruct (dict.lookup k (data c)); [done|]. rewrite lookup_cons.
  by rewrite decide_False.
Qed.

Lemma lru_get_idempotent_witness :
  let c : LRUCache.t string Z :=
    {| max_size := 2; data := [("a", (1, 0%float)); ("b", (2, 1%float))] |} in
  let c1 := snd (__getitem__ "a" 5%float c) in
  let c2 := snd (__getitem__ "a" 6%float c1) in
  lru_inv c /\
  fst (__getitem__ "a" 6%float c1) = Ok 1 /\
  dict.keys (data c2) = dict.keys (data c1) /\
  length (data c2) = length (data c).
Proof.
  assert (lru_inv ({| max_size := 2; data := [("a", (1, 0%float)); ("b", (2, 1%float))] |}
                   : LRUCache.t string Z)) as Hinv.
  { split; [|right; simpl; lia].
    unfold dict.wf. apply (bool_decide_unpack _). vm_compute. exact I. }
  split; [exact Hinv|].
  pose proof (lru_get_idempotent
    ({| max_size := 2; data := [("a", (1, 0%float)); ("b", (2, 1%float))] |}
     : LRUCache.t string Z) "a" 1 0%float 5%float 6%float Hinv eq_refl)
    as (_ & H2 & Hk & _ & Hlen & _).
  split; [exact H2|]. split; [exact Hk | exact Hlen].
Defined.

(** X5. A cache built with a non-positive [max_size] never holds anything:
    after any calls it is still the empty cache it was built as; every set
    raises [KeyError] (from [popitem] on the empty dictionary), every
    [__getitem__] raises [KeyError], and the defaulting get gives the
    default. *)
Theorem lru_nonpositive_capacity {K V : Type} `{EqDecision K} `{Repr K, Repr V}
    (n : Z) (clock : nat -> float) (ops : list (op K V))
    (key : K) (value : V) (default : option V) (now : float) :
  n <= 0 ->
  let c := snd (run clock 0 ops (new n)) in
  c = new n /\
  __setitem__ key value now c = (Raise KeyError, c) /\
  __getitem__ key now c = (Raise KeyError, c) /\
  get key default now c = (Ok default, c) /\
  __len__ c = (Ok 0%nat, c).
Proof.
  intros Hn c.
  assert (c = new n) as ->.
  { destruct (reachable_inv n c) as [[_ Hcap] Hmax].
    { apply run_reachable. constructor. }
    destruct c as [m d]. simpl in *. subst m. unfold new. f_equal.
    destruct Hcap as [Hd|Hle]; [done|]. destruct d; [done | simpl in Hle; lia]. }
  split; [done|]. split; [by apply lru_setitem_empty_full|].
  split; [apply lru_getitem_absent, not_elem_of_nil|].
  split; [apply lru_get_absent, not_elem_of_nil | done].
Qed.

Lemma lru_nonpositive_capacity_witness :
  0 <= 0 /\
  let c := snd (run (fun _ => 0%float) 0
                  [SetItem "a" 1; GetItem "a"; SetItem "b" 2; DelItem "a"]
                  (new 0 : LRUCache.t string Z)) in
  c = new 0 /\
  __setitem__ "c" 3 9%float c = (Raise KeyError, c) /\
  __getitem__ "c" 9%float c = (Raise KeyError, c) /\
  get "c" (Some 7) 9%float c = (Ok (Some 7), c) /\
  __len__ c = (Ok 0%nat, c).
Proof.
  split; [lia|].
  apply (lru_nonpositive_capacity (K:=string) (V:=Z) 0 (fun _ => 0%float)
           [SetItem "a" 1; GetItem "a"; SetItem "b" 2; DelItem "a"] "c" 3 (Some 7) 9%float).
  lia.
Defined.

(** X6. On every cache built by [LRUCache(n)] and used through its methods,
    [__len__] and [__iter__] leave the cache as it is and agree: the keys
    iterated are pairwise distinct, as many as the size, and exactly the keys
    for which [__contains__] answers true. *)
Theorem lru_iter_len_consistent {K V : Type} `{EqDecision K} `{Repr K, Repr V}
    (n : Z) (clock : nat -> float) (ops : list (op K V)) :
  let c := snd (run clock 0 ops (new n)) in
  exists (size : nat) (keys : list K),
    __len__ c = (Ok size, c) /\ __iter__ c = (Ok keys, c) /\
    length keys = size /\ NoDup keys /\
    (forall k, k ∈ keys <-> __contains__ k c = (Ok true, c)).
Proof.
  intros c. exists (length (data c)), (dict.keys (data c)).
  destruct (reachable_inv n c) as [[Hwf _] _].
  { apply run_reachable. constructor. }
  split; [done|]. split; [done|].
  split; [unfold dict.keys; by rewrite length_fmap|]. split; [exact Hwf|].
  intros k. rewrite <- contains_true. unfold __contains__, gets. split.
  - by intros ->.
  - by intros [= ->].
Qed.

(** a set leaves the entries of the other keys it keeps as they were *)
Lemma lru_setitem_other {K V : Type} `{EqDecision K}
    (c : LRUCache.t K V) (key k : K) (value : V) (now : float) (e : V * float) :
  dict.wf (data c) -> k ≠ key ->
  dict.lookup k (data (snd (__setitem__ key value now c))) = Some e ->
  dict.lookup k (data c) = Some e.
Proof.
  intros Hwf Hne.
  destruct (lru_setitem_cases key value now c)
    as [(Hin & ->)|[(Hn & Hlt & ->)|[(Hn & Hge & x & d' & Hd & ->)|(Hle & Hd & ->)]]];
    simpl; [| | |done].
  - rewrite lookup_app, lookup_remove_ne by done.
    destruct (dict.lookup k (data c)); [done|]. rewrite lookup_cons.
    by rewrite decide_False.
  - rewrite lookup_app. destruct (dict.lookup k (data c)); [done|].
    rewrite lookup_cons. by rewrite decide_False.
  - rewrite lookup_app. destruct (dict.lookup k d') as [e'|] eqn:Hl.
    + intros [= ->]. rewrite Hd in Hwf |- *. destruct x as [kx ex].
      rewrite lookup_cons. rewrite decide_False; [done|].
      intros ->. unfold dict.wf, dict.keys in Hwf. rewrite fmap_cons in Hwf.
      apply NoDup_cons in Hwf as [Hk _]. apply Hk.
      apply contains_true, contains_lookup. eauto.
    + rewrite lookup_cons. by rewrite decide_False.
Qed.

(** if after a call the key [k] holds the value [v], then either the call
    was a set of [k] to [v], or [k] already held [v] before the call *)
Lemma lru_step_value_origin {K V : Type} `{EqDecision K} `{Repr K, Repr V}
    (c : LRUCache.t K V) (o : op K V) (now : float) (k : K) (v : V) :
  lru_inv c ->
  fst <$> dict.lookup k (data (snd (step o now c))) = Some v ->
  o = SetItem k v \/ fst <$> dict.lookup k (data c) = Some v.
Proof.
  intros Hinv.
  assert (forall key value ts, dict.lookup key (data c) = Some (value, ts) ->
    fst <$> dict.lookup k (dict.remove key (data c) ++ [(key, (value, now))]) = Some v ->
    fst <$> dict.lookup k (data c) = Some v) as Htouch.
  { intros key value ts Hl. destruct (decide (k = key)) as [->|Hne].
    - rewrite lookup_snoc by (rewrite keys_remove, list_elem_of_filter; tauto).
      by rewrite Hl.
    - rewrite lookup_app, lookup_remove_ne by done.
      destruct (dict.lookup k (data c)); [done|]. rewrite lookup_cons.
      by rewrite decide_False. }
  assert (forall key, dict.lookup key (data c) <> None ->
            Z.of_nat (length (data c)) <= max_size c) as Hb.
  { intros key Hl. apply (lru_inv_present_bound c key Hinv).
    apply contains_true, contains_lookup.
    destruct (dict.lookup key (data c)) as [e|]; [by exists e | by destruct Hl]. }
  destruct o as [key value|key|key default|key|key| | |];
    unfold step, returning; try (simpl; by right).
  - destruct (decide (k = key)) as [->|Hne].
    + destruct (__setitem__ key value now c) as [[[]|e] c'] eqn:Hset; simpl.
      * destruct (lru_setitem_shape key value now c c' Hset) as (_ & d & -> & Hn).
        rewrite lookup_snoc by done. simpl. intros [= ->]. by left.
      * destruct (lru_setitem_cases key value now c)
          as [(_ & He)|[(_ & _ & He)|[(_ & _ & x & d' & _ & He)|(_ & _ & He)]]];
          rewrite He in Hset; try done. injection Hset as _ <-. by right.
    + intros Hl. right.
      assert (fst <$> dict.lookup k (data (snd (__setitem__ key value now c))) = Some v)
        as Hl' by (destruct (__setitem__ key value now c) as [[[]|e] c']; exact Hl).
      destruct (dict.lookup k (data (snd (__setitem__ key value now c))))
        as [e|] eqn:He; [|done].
      by rewrite (lru_setitem_other c key k value now e (proj1 Hinv) Hne He).
  - destruct (dict.lookup key (data c)) as [[value ts]|] eqn:Hl.
    + rewrite (lru_getitem_present key now c value ts);
        [| apply Hinv | apply (Hb key); by rewrite Hl | done].
      simpl. intros Hk. right. by apply (Htouch key value ts).
    + apply lookup_None in Hl. rewrite lru_getitem_absent by done. simpl. by right.
  - destruct (dict.lookup key (data c)) as [[value ts]|] eqn:Hl.
    + rewrite (lru_get_present key default now c value ts);
        [| apply Hinv | apply (Hb key); by rewrite Hl | done].
      simpl. intros Hk. right. by apply (Htouch key value ts).
    + apply lookup_None in Hl. rewrite lru_get_absent by done. simpl. by right.
  - destruct (decide (key ∈ dict.keys (data c))) as [Hin|Hn].
    + rewrite lru_delitem_present by done. simpl. intros Hk. right.
      destruct (decide (k = key)) as [->|Hne].
      * by rewrite lookup_remove_eq in Hk.
      * by rewrite lookup_remove_ne in Hk.
    + rewrite lru_delitem_absent by done. simpl. by right.
Qed.

Lemma lru_run_value_origin {K V : Type} `{EqDecision K} `{Repr K, Repr V}
    (clock : nat -> float) (ops : list (op K V)) (k : K) (v : V) : forall i c,
  lru_inv c ->
  fst <$> dict.lookup k (data (snd (run clock i ops c))) = Some v ->
  SetItem k v ∈ ops \/ fst <$> dict.lookup k (data c) = Some v.
Proof.
  induction ops as [|o ops IH]; intros i c Hinv; simpl; [by right|].
  pose proof (lru_inv_step o (clock i) c Hinv) as Hinv'.
  pose proof (lru_step_value_origin c o (clock i) k v Hinv) as Hstep.
  destruct (step o (clock i) c) as [r c']. simpl in Hinv', Hstep.
  specialize (IH (S i) c' Hinv').
  destruct (run clock (S i) ops c') as [rs c'']. simpl in *.
  intros Hl. destruct (IH Hl) as [Hin|Hc'].
  - left. apply elem_of_cons. by right.
  - destruct (Hstep Hc') as [->|Hc]; [left; apply elem_of_cons; by left | by right].
Qed.

(** X7. Values come from sets and from nowhere else. No call changes the
    value stored under a key except a set of that key: if after a call [k]
    holds [v], the call was a set of [k] to [v] or [k] held [v] before. So on
    every cache built by [LRUCache(n)] and used through its methods, a value
    that a get of [k] returns was the value of some earlier set of [k]. *)
Theorem lru_values_come_from_sets {K V : Type} `{EqDecision K} `{Repr K, Repr V} :
  (forall (c : LRUCache.t K V) (o : op K V) (now : float) (k : K) (v : V),
     lru_inv c ->
     fst <$> dict.lookup k (data (snd (step o now c))) = Some v ->
     o = SetItem k v \/ fst <$> dict.lookup k (data c) = Some v) /\
  (forall (n : Z) (clock : nat -> float) (ops : list (op K V)) (k : K) (v : V)
          (default : option V) (now : float),
     let c := snd (run clock 0 ops (new n)) in
     (fst (__getitem__ k now c) = Ok v -> SetItem k v ∈ ops) /\
     (fst (get k default now c) = Ok (Some v) ->
      SetItem k v ∈ ops \/ default = Some v)).
Proof.
  split; [intros c o now k v; apply lru_step_value_origin|].
  intros n clock ops k v default now c.
  assert (lru_inv c) as Hinv.
  { apply (reachable_inv n). apply run_reachable. constructor. }
  assert (fst <$> dict.lookup k (data c) = Some v -> SetItem k v ∈ ops) as Horigin.
  { intros Hl.
    destruct (lru_run_value_origin clock ops k v 0 (new n) (lru_inv_new n) Hl)
      as [Hin|Hnew]; [done | done]. }
  destruct (dict.lookup k (data c)) as [[v' ts]|] eqn:Hl.
  - assert (Z.of_nat (length (data c)) <= max_size c) as Hb.
    { apply (lru_inv_present_bound c k Hinv).
      apply contains_true, contains_lookup. eauto. }
    rewrite (lru_get_present k default now c v' ts (proj1 Hinv) Hb Hl).
    rewrite (lru_getitem_present k now c v' ts (proj1 Hinv) Hb Hl). simpl.
    split; [intros [= ->]; by apply Horigin | intros [= ->]; left; by apply Horigin].
  - apply lookup_None in Hl.
    rewrite lru_get_absent, lru_getitem_absent by done. simpl.
    split; [done | intros [= ->]; by right].
Qed.

Lemma lru_values_come_from_sets_witness :
  let c : LRUCache.t string Z :=
    {| max_size := 2; data := [("a", (1, 0%float)); ("b", (2, 1%float))] |} in
  lru_inv c /\
  fst <$> dict.lookup "b" (data (snd (step (SetItem "c" 3) 5%float c))) = Some 2 /\
  (SetItem "c" 3 = SetItem "b" 2 \/ fst <$> dict.lookup "b" (data c) = Some 2).
Proof.
  assert (lru_inv ({| max_size := 2; data := [("a", (1, 0%float)); ("b", (2, 1%float))] |}
                   : LRUCache.t string Z)) as Hinv.
  { split; [|right; simpl; lia].
    unfold dict.wf. apply (bool_decide_unpack _). vm_compute. exact I. }
  split; [exact Hinv|]. split; [reflexivity|].
  exact (proj1 (lru_values_come_from_sets (K:=string) (V:=Z))
    ({| max_size := 2; data := [("a", (1, 0%float)); ("b", (2, 1%float))] |}
     : LRUCache.t string Z) (SetItem "c" 3) 5%float "b" 2 Hinv eq_refl).
Defined.

(** the entry at the most recently used end outlives a set of another key,
    when the cache has room for two *)
Lemma lru_last_survives_set {K V : Type} `{EqDecision K}
    (c : LRUCache.t K V) (d : dict.t K (V * float)) (k k' : K) (e : V * float)
    (v' : V) (now : float) :
  lru_inv c -> 2 <= max_size c -> k' ≠ k ->
  data c = d ++ [(k, e)] -> k ∉ dict.keys d ->
  exists c', __setitem__ k' v' now c = (Ok tt, c') /\
    dict.lookup k (data c') = Some e.
Proof.
  intros [Hwf Hcap] Hmax Hne Hd Hk.
  assert (dict.lookup k (data c) = Some e) as Hl by (rewrite Hd; by apply lookup_snoc).
  destruct (lru_setitem_cases k' v' now c)
    as [(Hin & ->)|[(Hn & Hlt & ->)|[(Hn & Hge & x & d' & Hx & ->)|(Hle & _ & _)]]];
    [| | |lia]; eexists; (split; [done|]); simpl.
  - rewrite lookup_app, lookup_remove_ne by done. by rewrite Hl.
  - rewrite lookup_app. by rewrite Hl.
  - rewrite Hd in Hx. destruct d as [|y d0].
    + rewrite Hd in Hge. simpl in Hge. lia.
    + simpl in Hx. injection Hx as -> <-.
      unfold dict.keys in Hk. rewrite fmap_cons, not_elem_of_cons in Hk.
      rewrite <- app_assoc, lookup_app.
      rewrite (proj2 (lookup_None k d0)) by tauto. simpl.
      rewrite lookup_cons. by rewrite decide_True.
Qed.

(** X8. The entry used last is safe from the next insertion: on a cache of
    capacity at least 2 that satisfies the class invariant, after a set of
    [k], or after a successful get of [k], a set of any other key returns
    and leaves [k] live with its value. *)
Theorem lru_most_recent_survives {K V : Type} `{EqDecision K}
    (c : LRUCache.t K V) (k k' : K) (v v' : V) (t1 t2 : float) :
  lru_inv c -> 2 <= max_size c -> k' ≠ k ->
  (exists c1 c2,
     __setitem__ k v t1 c = (Ok tt, c1) /\
     __setitem__ k' v' t2 c1 = (Ok tt, c2) /\
     dict.lookup k (data c2) = Some (v, t1)) /\
  (forall ts, dict.lookup k (data c) = Some (v, ts) ->
     exists c1 c2,
       __getitem__ k t1 c = (Ok v, c1) /\
       __setitem__ k' v' t2 c1 = (Ok tt, c2) /\
       dict.lookup k (data c2) = Some (v, t1)).
Proof.
  intros Hinv Hmax Hne. split.
  - destruct (__setitem__ k v t1 c) as [[[]|e] c1] eqn:Hset.
    + destruct (lru_setitem_shape k v t1 c c1 Hset) as (Hm & d & Hd & Hk).
      assert (lru_inv c1) as Hinv1.
      { pose proof (lru_inv_setitem k v t1 c Hinv) as Hi. by rewrite Hset in Hi. }
      destruct (lru_last_survives_set c1 d k k' (v, t1) v' t2) as (c2 & H2 & Hl);
        [done | lia | done | done | done |].
      by exists c1, c2.
    + exfalso. destruct (lru_setitem_cases k v t1 c)
        as [(_ & He)|[(_ & _ & He)|[(_ & _ & x & d' & _ & He)|(Hle & _ & _)]]];
        [congruence | congruence | congruence | lia].
  - intros ts Hl.
    assert (k ∈ dict.keys (data c)) as Hin
      by (apply contains_true, contains_lookup; eauto).
    pose proof (lru_inv_present_bound c k Hinv Hin) as Hb.
    pose proof (lru_getitem_present k t1 c v ts (proj1 Hinv) Hb Hl) as Hget.
    destruct (lru_last_survives_set
                (set_data (dict.remove k (data c) ++ [(k, (v, t1))]) c)
                (dict.remove k (data c)) k k' (v, t1) v' t2) as (c2 & H2 & Hl2);
      [by apply lru_inv_touch | done | done | done | |].
    { rewrite keys_remove, list_elem_of_filter. tauto. }
    by eexists _, c2.
Qed.

Lemma lru_most_recent_survives_witness :
  let c : LRUCache.t string Z :=
    {| max_size := 2; data := [("a", (1, 0%float)); ("b", (2, 1%float))] |} in
  lru_inv c /\ 2 <= 2 /\ "c" ≠ "a" /\
  exists c1 c2,
    __getitem__ "a" 5%float c = (Ok 1, c1) /\
    __setitem__ "c" 3 6%float c1 = (Ok tt, c2) /\
    dict.lookup "a" (data c2) = Some (1, 5%float).
Proof.
  assert (lru_inv ({| max_size := 2; data := [("a", (1, 0%float)); ("b", (2, 1%float))] |}
                   : LRUCache.t string Z)) as Hinv.
  { split; [|right; simpl; lia].
    unfold dict.wf. apply (bool_decide_unpack _). vm_compute. exact I. }
  assert ("c" ≠ "a") as Hne by discriminate.
  split; [exact Hinv|]. split; [lia|]. split; [exact Hne|].
  exact (proj2 (lru_most_recent_survives
    ({| max_size := 2; data := [("a", (1, 0%float)); ("b", (2, 1%float))] |}
     : LRUCache.t string Z) "a" "c" 1 3 5%float 6%float Hinv (Z.le_refl 2) Hne)
    0%float eq_refl).
Defined.

(** X9. Set then delete. When the key is new and the cache has room, a set
    followed by a delete of the same key gives back the very cache one
    started from. When the key is new and the cache is full, the pair costs
    the least recently used entry: what is left is the cache without its
    front entry. *)
Theorem lru_set_then_delete {K V : Type} `{EqDecision K}
    (c : LRUCache.t K V) (key : K) (value : V) (now : float) :
  key ∉ dict.keys (data c) ->
  (Z.of_nat (length (data c)) < max_size c ->
     exists c1, __setitem__ key value now c = (Ok tt, c1) /\
       __delitem__ key c1 = (Ok tt, c)) /\
  (forall lru rest, max_size c <= Z.of_nat (length (data c)) ->
     data c = lru :: rest ->
     exists c1, __setitem__ key value now c = (Ok tt, c1) /\
       __delitem__ key c1 = (Ok tt, set_data rest c)).
Proof.
  intros Hn. split.
  - intros Hlt. eexists. split; [by apply lru_setitem_room|].
    rewrite lru_delitem_present by (simpl; rewrite keys_snoc, elem_of_app, list_elem_of_singleton; tauto).
    simpl. rewrite remove_snoc by done. unfold set_data. simpl. by destruct c.
  - intros lru rest Hge Hd. eexists.
    split; [by apply (lru_setitem_evict key value now c lru rest)|].
    assert (key ∉ dict.keys rest) as Hn'.
    { rewrite Hd in Hn. unfold dict.keys in Hn |- *.
      rewrite fmap_cons, not_elem_of_cons in Hn. tauto. }
    rewrite lru_delitem_present by (simpl; rewrite keys_snoc, elem_of_app, list_elem_of_singleton; tauto).
    simpl. by rewrite remove_snoc.
Qed.

Lemma lru_set_then_delete_witness :
  let c : LRUCache.t string Z :=
    {| max_size := 2; data := [("a", (1, 0%float))] |} in
  ("b" ∉ dict.keys (data c)) /\
  exists c1, __setitem__ "b" 2 5%float c = (Ok tt, c1) /\
    __delitem__ "b" c1 = (Ok tt, c).
Proof.
  assert ("b" ∉ dict.keys [("a", (1%Z, 0%float))]) as Hn.
  { apply (bool_decide_unpack _). vm_compute. exact I. }
  split; [exact Hn|].
  apply (proj1 (lru_set_then_delete
    ({| max_size := 2; data := [("a", (1, 0%float))] |} : LRUCache.t string Z)
    "b" 2 5%float Hn)).
  simpl. lia.
Defined.

(** X10. How a set changes the size, on a cache of positive capacity that
    satisfies the class invariant: a set of a live key keeps the size; a set
    of a new key adds one entry, unless the cache is full, and then the size
    stays at [max_size]: a set drops at most one entry. *)
Theorem lru_setitem_size {K V : Type} `{EqDecision K}
    (c : LRUCache.t K V) (key : K) (value : V) (now : float) :
  lru_inv c -> 0 < max_size c ->
  length (data (snd (__setitem__ key value now c))) =
  if dict.contains key (data c) then length (data c)
  else Nat.min (S (length (data c))) (Z.to_nat (max_size c)).
Proof.
  intros [Hwf Hcap] Hpos.
  assert (Z.of_nat (length (data c)) <= max_size c) as Hb.
  { destruct Hcap as [->|?]; [simpl; lia | done]. }
  destruct (lru_setitem_cases key value now c)
    as [(Hin & ->)|[(Hn & Hlt & ->)|[(Hn & Hge & x & d' & Hd & ->)|(Hle & _ & _)]]];
    [| | |lia]; cbn [snd set_data data].
  - rewrite (proj2 (contains_true key (data c)) Hin). by apply length_touch.
  - rewrite (proj2 (contains_false key (data c)) Hn), length_app.
    change (length [(key, (value, now))]) with 1%nat. lia.
  - rewrite (proj2 (contains_false key (data c)) Hn), length_app.
    change (length [(key, (value, now))]) with 1%nat.
    assert (length (data c) = S (length d')) as Hlen by (by rewrite Hd).
    rewrite Hlen in *. lia.
Qed.

Lemma lru_setitem_size_witness :
  let c : LRUCache.t string Z :=
    {| max_size := 2; data := [("a", (1, 0%float)); ("b", (2, 1%float))] |} in
  lru_inv c /\ 0 < 2 /\
  length (data (snd (__setitem__ "c" 3 5%float c))) = 2%nat.
Proof.
  assert (lru_inv ({| max_size := 2; data := [("a", (1, 0%float)); ("b", (2, 1%float))] |}
                   : LRUCache.t string Z)) as Hinv.
  { split; [|right; simpl; lia].
    unfold dict.wf. apply (bool_decide_unpack _). vm_compute. exact I. }
  split; [exact Hinv|]. split; [lia|].
  exact (lru_setitem_size
    ({| max_size := 2; data := [("a", (1, 0%float)); ("b", (2, 1%float))] |}
     : LRUCache.t string Z) "c" 3 5%float Hinv (eq_refl : (0 ?= 2) = Lt)).
Defined.
End lru_further.

(** * Further properties of TTLCache *)
Section ttl_further.
Import TTLCache.

Lemma ttl_contains_state {K V : Type} `{EqDecision K}
    (c : TTLCache.t K V) (key : K) (now : float) :
  snd (__contains__ key now c) = snd (__getitem__ key now c).
Proof.
  destruct (dict.lookup key (_data c)) as [[v ts]|] eqn:Hl.
  - destruct (float_le (PrimFloat.sub now ts) (_ttl c)) eqn:Hf.
    + by rewrite (ttl_contains_fresh key now c v ts Hl Hf),
                 (ttl_getitem_fresh key now c v ts Hl Hf).
    + by rewrite (ttl_contains_stale key now c v ts Hl Hf),
                 (ttl_getitem_stale key now c v ts Hl Hf).
  - by rewrite (ttl_contains_absent key now c Hl), (ttl_getitem_absent key now c Hl).
Qed.

(** X11. [__contains__] of TTLCache agrees with [__getitem__] read at the same
    clock value: it answers true exactly when the get would return, it never
    raises, and it leaves the cache in the state the get would leave it in
    (a stale entry of the key is removed, nothing else changes). *)
Theorem ttl_contains_agrees_with_get {K V : Type} `{EqDecision K}
    (c : TTLCache.t K V) (key : K) (now : float) :
  __contains__ key now c =
  (Ok (match fst (__getitem__ key now c) with Ok _ => true | Raise _ => false end),
   snd (__getitem__ key now c)).
Proof.
  destruct (dict.lookup key (_data c)) as [[v ts]|] eqn:Hl.
  - destruct (float_le (PrimFloat.sub now ts) (_ttl c)) eqn:Hf.
    + by rewrite (ttl_contains_fresh key now c v ts Hl Hf),
                 (ttl_getitem_fresh key now c v ts Hl Hf).
    + by rewrite (ttl_contains_stale key now c v ts Hl Hf),
                 (ttl_getitem_stale key now c v ts Hl Hf).
  - by rewrite (ttl_contains_absent key now c Hl), (ttl_getitem_absent key now c Hl).
Qed.

Lemma length_setitem_present {K E : Type} `{EqDecision K} (k : K) (e : E)
    (d : dict.t K E) :
  k ∈ dict.keys d -> length (dict.setitem k e d) = length d.
Proof.
  intros Hin. pose proof (keys_setitem_present k e d Hin) as Hk.
  apply (f_equal length) in Hk. unfold dict.keys in Hk. by rewrite !length_fmap in Hk.
Qed.

(** X12. [__setitem__] of TTLCache has no capacity limit and touches one key
    only: it always returns, stores the value with the current clock value,
    leaves every other entry as it was, keeps the place of a key that was
    already there, appends a new key at the end, and never makes the
    dictionary smaller. *)
Theorem ttl_setitem_spec {K V : Type} `{EqDecision K}
    (c : TTLCache.t K V) (key : K) (value : V) (now : float) :
  exists c', __setitem__ key value now c = (Ok tt, c') /\
    _ttl c' = _ttl c /\
    dict.lookup key (_data c') = Some (value, now) /\
    (forall k, k ≠ key -> dict.lookup k (_data c') = dict.lookup k (_data c)) /\
    (key ∈ dict.keys (_data c) ->
       dict.keys (_data c') = dict.keys (_data c) /\
       length (_data c') = length (_data c)) /\
    (key ∉ dict.keys (_data c) ->
       _data c' = _data c ++ [(key, (value, now))]) /\
    (length (_data c) <= length (_data c'))%nat /\
    (dict.wf (_data c) -> dict.wf (_data c')).
Proof.
  eexists. split; [reflexivity|]. simpl. split; [done|].
  split; [apply lookup_setitem_eq|].
  split; [intros k Hne; by apply lookup_setitem_ne|].
  split; [intros Hin; split; [by apply keys_setitem_present
                             | by apply length_setitem_present]|].
  split; [apply setitem_absent|].
  split; [|apply wf_setitem].
  destruct (decide (key ∈ dict.keys (_data c))) as [Hin|Hn].
  - by rewrite length_setitem_present.
  - rewrite setitem_absent, length_app by done. lia.
Qed.

(** X13. Operations on one key of a TTLCache leave the entries of every other
    key alone, stale or not: after a set, a get (raising or defaulting), a
    delete or a membership test of [key], every other key holds exactly the
    value and timestamp it held before. *)
Theorem ttl_per_key_locality {K V : Type} `{EqDecision K}
    (c : TTLCache.t K V) (key k : K) (value : V) (default : option V) (now : float) :
  k ≠ key ->
  dict.lookup k (_data (snd (__setitem__ key value now c))) = dict.lookup k (_data c) /\
  dict.lookup k (_data (snd (__getitem__ key now c))) = dict.lookup k (_data c) /\
  dict.lookup k (_data (snd (get key default now c))) = dict.lookup k (_data c) /\
  dict.lookup k (_data (snd (__delitem__ key c))) = dict.lookup k (_data c) /\
  dict.lookup k (_data (snd (__contains__ key now c))) = dict.lookup k (_data c).
Proof.
  intros Hne.
  assert (dict.lookup k (_data (snd (__getitem__ key now c))) = dict.lookup k (_data c))
    as Hget.
  { destruct (dict.lookup key (_data c)) as [[v ts]|] eqn:Hl.
    - destruct (float_le (PrimFloat.sub now ts) (_ttl c)) eqn:Hf.
      + by rewrite (ttl_getitem_fresh key now c v ts Hl Hf).
      + rewrite (ttl_getitem_stale key now c v ts Hl Hf). simpl.
        apply lookup_remove_ne. congruence.
    - by rewrite (ttl_getitem_absent key now c Hl). }
  split; [simpl; apply lookup_setitem_ne; congruence|].
  split; [exact Hget|]. split; [|split].
  - unfold get, try_except, mbind, M_bind.
    destruct (__getitem__ key now c) as [[v|e] c']; exact Hget.
  - destruct (dict.lookup key (_data c)) as [[v ts]|] eqn:Hl.
    + rewrite (ttl_delitem_present key c v ts Hl). simpl.
      apply lookup_remove_ne. congruence.
    + by rewrite (ttl_delitem_absent key c Hl).
  - rewrite ttl_contains_state. exact Hget.
Qed.

Lemma ttl_per_key_locality_witness :
  let c : TTLCache.t string Z :=
    {| _ttl := 60%float; _data := [("a", (1, 10%float)); ("b", (2, 20%float))] |} in
  "b" ≠ "a" /\
  dict.lookup "b" (_data (snd (__getitem__ "a" 100%float c))) = Some (2, 20%float) /\
  dict.lookup "b" (_data (snd (__contains__ "a" 100%float c))) = Some (2, 20%float).
Proof.
  assert ("b" ≠ "a") as Hne by discriminate.
  split; [exact Hne|].
  pose proof (ttl_per_key_locality
    ({| _ttl := 60%float; _data := [("a", (1, 10%float)); ("b", (2, 20%float))] |}
     : TTLCache.t string Z) "a" "b" 0 None 100%float Hne) as (_ & Hg & _ & _ & Hc).
  split; [exact Hg | exact Hc].
Defined.

Lemma unexpired_idempotent {K V : Type} (now ttl : float) (d : dict.t K (V * float)) :
  unexpired now ttl (unexpired now ttl d) = unexpired now ttl d.
Proof.
  unfold unexpired. rewrite list_filter_filter. apply list_filter_iff. tauto.
Qed.

(** X14. Sweeping twice at the same clock value is sweeping once: on a cache
    with a well-formed dictionary, a second [__len__] (or [__iter__]) at the
    same [now] returns what the first returned and changes nothing. *)
Theorem ttl_sweep_idempotent {K V : Type} `{EqDecision K}
    (c : TTLCache.t K V) (now : float) :
  dict.wf (_data c) ->
  let c1 := snd (__len__ now c) in
  _expire_all now c1 = (Ok tt, c1) /\
  __len__ now c1 = (fst (__len__ now c), c1) /\
  __iter__ now c1 = (fst (__iter__ now c), c1) /\
  snd (__iter__ now c) = c1.
Proof.
  intros Hwf c1.
  pose proof (expire_all_spec now c Hwf) as He.
  assert (c1 = set_data (unexpired now (_ttl c) (_data c)) c) as Hc1.
  { unfold c1, __len__, mbind, M_bind. by rewrite He. }
  assert (_expire_all now c1 = (Ok tt, c1)) as He1.
  { rewrite expire_all_spec by (rewrite Hc1; by apply wf_unexpired).
    rewrite Hc1. simpl. unfold set_data. simpl. by rewrite unexpired_idempotent. }
  split; [exact He1|].
  unfold __len__, __iter__, mbind, M_bind. rewrite He1, He. simpl.
  rewrite Hc1. simpl. done.
Qed.

Lemma ttl_sweep_idempotent_witness :
  let c : TTLCache.t string Z :=
    {| _ttl := 60%float;
       _data := [("a", (1, 10%float)); ("b", (2, 50%float)); ("c", (3, 39%float))] |} in
  let c1 := snd (__len__ 100%float c) in
  dict.wf (_data c) /\
  __len__ 100%float c = (Ok 1%nat, c1) /\
  __len__ 100%float c1 = (Ok 1%nat, c1).
Proof.
  assert (dict.wf [("a", (1%Z, 10%float)); ("b", (2%Z, 50%float)); ("c", (3%Z, 39%float))])
    as Hwf.
  { unfold dict.wf. apply (bool_decide_unpack _). vm_compute. exact I. }
  split; [exact Hwf|]. split; [reflexivity|].
  exact (proj1 (proj2 (ttl_sweep_idempotent
    ({| _ttl := 60%float;
        _data := [("a", (1, 10%float)); ("b", (2, 50%float)); ("c", (3, 39%float))] |}
     : TTLCache.t string Z) 100%float Hwf))).
Defined.

(** X15. A sweep never removes what a get would return: on a cache with a
    well-formed dictionary, if a get of [key] at [now] returns [v], then
    after [__len__] at the same [now] the get still returns [v], and the
    sweep did not touch that entry. *)
Theorem ttl_sweep_keeps_fresh {K V : Type} `{EqDecision K}
    (c : TTLCache.t K V) (key : K) (v : V) (now : float) :
  dict.wf (_data c) ->
  fst (__getitem__ key now c) = Ok v ->
  let c1 := snd (__len__ now c) in
  dict.lookup key (_data c1) = dict.lookup key (_data c) /\
  __getitem__ key now c1 = (Ok v, c1).
Proof.
  intros Hwf Hget c1.
  pose proof (expire_all_spec now c Hwf) as He.
  assert (c1 = set_data (unexpired now (_ttl c) (_data c)) c) as Hc1.
  { unfold c1, __len__, mbind, M_bind. by rewrite He. }
  destruct (dict.lookup key (_data c)) as [[v' ts]|] eqn:Hl.
  - destruct (float_le (PrimFloat.sub now ts) (_ttl c)) eqn:Hf.
    + rewrite (ttl_getitem_fresh key now c v' ts Hl Hf) in Hget.
      injection Hget as ->.
      assert (dict.lookup key (_data c1) = Some (v, ts)) as Hl1.
      { rewrite Hc1. simpl. apply lookup_unexpired; [done|]. split; [done|].
        by apply float_le_not_gt. }
      split; [done|]. apply (ttl_getitem_fresh key now c1 v ts Hl1).
      by rewrite Hc1.
    + by rewrite (ttl_getitem_stale key now c v' ts Hl Hf) in Hget.
  - by rewrite (ttl_getitem_absent key now c Hl) in Hget.
Qed.

Lemma ttl_sweep_keeps_fresh_witness :
  let c : TTLCache.t string Z :=
    {| _ttl := 60%float;
       _data := [("a", (1, 10%float)); ("b", (2, 50%float)); ("c", (3, 39%float))] |} in
  let c1 := snd (__len__ 100%float c) in
  dict.wf (_data c) /\
  fst (__getitem__ "b" 100%float c) = Ok 2 /\
  __getitem__ "b" 100%float c1 = (Ok 2, c1).
Proof.
  assert (dict.wf [("a", (1%Z, 10%float)); ("b", (2%Z, 50%float)); ("c", (3%Z, 39%float))])
    as Hwf.
  { unfold dict.wf. apply (bool_decide_unpack _). vm_compute. exact I. }
  split; [exact Hwf|]. split; [reflexivity|].
  exact (proj2 (ttl_sweep_keeps_fresh
    ({| _ttl := 60%float;
        _data := [("a", (1, 10%float)); ("b", (2, 50%float)); ("c", (3, 39%float))] |}
     : TTLCache.t string Z) "b" 2 100%float Hwf eq_refl)).
Defined.

(** *** A [ttl] that is not a number *)

Lemma SFcompare_refl (x : spec_float) : x <> S754_nan -> SFcompare x x = Some Eq.
Proof.
  destruct x as [s|s| |s m e]; intros Hx; simpl; try done; try (by destruct s).
  destruct s; rewrite Z.compare_refl;
    change (Pos.compare_cont Eq m m) with (Pos.compare m m);
    by rewrite Pos.compare_refl.
Qed.

Lemma float_nan_compare (x y : float) :
  PrimFloat.is_nan x = true -> float_le y x = false /\ float_gt y x = false.
Proof.
  unfold PrimFloat.is_nan, float_le, float_gt.
  rewrite FloatAxioms.eqb_spec, leb_spec, ltb_spec. unfold SFeqb, SFleb, SFltb.
  intros Hnan. assert (Prim2SF x = S754_nan) as ->.
  { destruct (Prim2SF x) as [s|s| |s m e] eqn:Hx; [| |done|];
      rewrite SFcompare_refl in Hnan by done; done. }
  split; [by destruct (Prim2SF y) | done].
Qed.

Lemma keys_to_remove_nan {K V : Type} (now ttl : float) (d : dict.t K (V * float)) :
  PrimFloat.is_nan ttl = true -> keys_to_remove now ttl d = [].
Proof.
  intros Hnan. induction d as [|[k [v ts]] d IH]; [done|].
  change (keys_to_remove now ttl ((k, (v, ts)) :: d)) with
    (match (if float_gt (PrimFloat.sub now ts) ttl then Some k else None) with
     | Some y => y :: keys_to_remove now ttl d
     | None => keys_to_remove now ttl d
     end).
  by rewrite (proj2 (float_nan_compare ttl (PrimFloat.sub now ts) Hnan)).
Qed.

(** X16. With a [ttl] that is NaN the two expiry tests part ways: the sweep
    ([now - ts > ttl] is false) removes nothing, so [__len__] counts every
    stored entry and [__iter__] lists every key, while a get or a membership
    test of any stored key ([now - ts <= ttl] is false too) removes the
    entry and reports it missing. *)
Theorem ttl_nan_ttl {K V : Type} `{EqDecision K}
    (c : TTLCache.t K V) (now : float) :
  PrimFloat.is_nan (_ttl c) = true ->
  _expire_all now c = (Ok tt, c) /\
  __len__ now c = (Ok (length (_data c)), c) /\
  __iter__ now c = (Ok (dict.keys (_data c)), c) /\
  (forall key v ts, dict.lookup key (_data c) = Some (v, ts) ->
     let c' := set_data (dict.remove key (_data c)) c in
     __getitem__ key now c = (Raise KeyError, c') /\
     __contains__ key now c = (Ok false, c')).
Proof.
  intros Hnan.
  assert (_expire_all now c = (Ok tt, c)) as He.
  { unfold _expire_all, mbind, M_bind, gets. simpl.
    rewrite keys_to_remove_nan by done. done. }
  split; [exact He|].
  split; [unfold __len__, mbind, M_bind; by rewrite He|].
  split; [unfold __iter__, mbind, M_bind; by rewrite He|].
  intros key v ts Hl c'.
  pose proof (proj1 (float_nan_compare (_ttl c) (PrimFloat.sub now ts) Hnan)) as Hf.
  split.
  - by apply (ttl_getitem_stale key now c v ts).
  - by apply (ttl_contains_stale key now c v ts).
Qed.

Lemma ttl_nan_ttl_witness :
  let c : TTLCache.t string Z :=
    {| _ttl := PrimFloat.nan; _data := [("a", (1, 10%float))] |} in
  PrimFloat.is_nan (_ttl c) = true /\
  __len__ 10%float c = (Ok 1%nat, c) /\
  __getitem__ "a" 10%float c = (Raise KeyError, {| _ttl := PrimFloat.nan; _data := [] |}).
Proof.
  split; [reflexivity|].
  pose proof (ttl_nan_ttl
    ({| _ttl := PrimFloat.nan; _data := [("a", (1, 10%float))] |} : TTLCache.t string Z)
    10%float eq_refl) as (_ & Hlen & _ & Hget).
  split; [exact Hlen|]. exact (proj1 (Hget "a" 1 10%float eq_refl)).
Defined.

(** X17. Set then delete on TTLCache: when the key is not stored, a set
    followed by a delete of the same key gives back the very cache one
    started from. *)
Theorem ttl_set_then_delete {K V : Type} `{EqDecision K}
    (c : TTLCache.t K V) (key : K) (value : V) (now : float) :
  key ∉ dict.keys (_data c) ->
  __delitem__ key (snd (__setitem__ key value now c)) = (Ok tt, c).
Proof.
  intros Hn. simpl.
  rewrite (ttl_delitem_present key _ value now) by (simpl; apply lookup_setitem_eq).
  simpl. rewrite setitem_absent, remove_snoc by done. by destruct c.
Qed.

Lemma ttl_set_then_delete_witness :
  let c : TTLCache.t string Z :=
    {| _ttl := 60%float; _data := [("a", (1, 10%float))] |} in
  ("b" ∉ dict.keys (_data c)) /\
  __delitem__ "b" (snd (__setitem__ "b" 2 20%float c)) = (Ok tt, c).
Proof.
  assert ("b" ∉ dict.keys [("a", (1%Z, 10%float))]) as Hn.
  { apply (bool_decide_unpack _). vm_compute. exact I. }
  split; [exact Hn|].
  exact (ttl_set_then_delete
    ({| _ttl := 60%float; _data := [("a", (1, 10%float))] |} : TTLCache.t string Z)
    "b" 2 20%float Hn).
Defined.
End ttl_further.

(** * Further properties of whole runs *)
Section runs_further.

Lemma ttl_step_ttl {K V : Type} `{EqDecision K} `{Repr K, Repr V}
    (o : TTLCache.op K V) (now : float) (c : TTLCache.t K V) :
  dict.wf (TTLCache._data c) ->
  TTLCache._ttl (snd (TTLCache.step o now c)) = TTLCache._ttl c.
Proof.
  intros Hwf.
  assert (forall key, TTLCache._ttl (snd (TTLCache.__getitem__ key now c))
                      = TTLCache._ttl c) as Hget.
  { intros key. destruct (dict.lookup key (TTLCache._data c)) as [[v ts]|] eqn:Hl.
    - destruct (float_le (PrimFloat.sub now ts) (TTLCache._ttl c)) eqn:Hf.
      + by rewrite (ttl_getitem_fresh key now c v ts Hl Hf).
      + by rewrite (ttl_getitem_stale key now c v ts Hl Hf).
    - by rewrite (ttl_getitem_absent key now c Hl). }
  pose proof (expire_all_spec now c Hwf) as He.
  destruct o as [key value|key|key default|key|key| | |];
    unfold TTLCache.step, TTLCache.returning.
  - done.
  - specialize (Hget key).
    destruct (TTLCache.__getitem__ key now c) as [[v|e] c']; exact Hget.
  - specialize (Hget key). unfold TTLCache.get, try_except, mbind, M_bind.
    destruct (TTLCache.__getitem__ key now c) as [[v|e] c']; exact Hget.
  - destruct (dict.lookup key (TTLCache._data c)) as [[v ts]|] eqn:Hl.
    + by rewrite (ttl_delitem_present key c v ts Hl).
    + by rewrite (ttl_delitem_absent key c Hl).
  - specialize (Hget key). rewrite <- ttl_contains_state in Hget.
    destruct (TTLCache.__contains__ key now c) as [[b|e] c']; exact Hget.
  - unfold TTLCache.__len__, mbind, M_bind. by rewrite He.
  - unfold TTLCache.__iter__, mbind, M_bind. by rewrite He.
  - unfold TTLCache.__repr__, mbind, M_bind. by rewrite He.
Qed.

Lemma ttl_run_ttl {K V : Type} `{EqDecision K} `{Repr K, Repr V}
    (clock : nat -> float) (ops : list (TTLCache.op K V)) : forall i c,
  dict.wf (TTLCache._data c) ->
  TTLCache._ttl (snd (TTLCache.run clock i ops c)) = TTLCache._ttl c.
Proof.
  induction ops as [|o ops IH]; intros i c Hwf; simpl; [done|].
  pose proof (ttl_wf_step o (clock i) c Hwf) as Hstep.
  pose proof (ttl_step_ttl o (clock i) c Hwf) as Httl.
  destruct (TTLCache.step o (clock i) c) as [r c']. simpl in Hstep, Httl.
  specialize (IH (S i) c' Hstep).
  destruct (TTLCache.run clock (S i) ops c') as [rs c'']. simpl in *. congruence.
Qed.

(** X18. On every cache built by [TTLCache(ttl)] and used through its
    methods, [__len__] and [__iter__] read at the same clock value agree and
    leave the same cache: the keys iterated are pairwise distinct, as many
    as the size, in the order they have in the dictionary, and exactly the
    stored keys whose age does not exceed [ttl]. *)
Theorem ttl_iter_len_consistent {K V : Type} `{EqDecision K} `{Repr K, Repr V}
    (ttl : float) (clock : nat -> float) (ops : list (TTLCache.op K V)) (now : float) :
  let c := snd (TTLCache.run clock 0 ops (TTLCache.new ttl)) in
  exists (size : nat) (keys : list K) (c' : TTLCache.t K V),
    TTLCache.__len__ now c = (Ok size, c') /\
    TTLCache.__iter__ now c = (Ok keys, c') /\
    length keys = size /\ NoDup keys /\
    keys `sublist_of` dict.keys (TTLCache._data c) /\
    (forall k, k ∈ keys <->
       exists v ts, dict.lookup k (TTLCache._data c) = Some (v, ts) /\
         expired now (TTLCache._ttl c) ts = false).
Proof.
  intros c.
  assert (dict.wf (TTLCache._data c)) as Hwf.
  { apply ttl_wf_run. apply NoDup_nil_2. }
  pose proof (expire_all_spec now c Hwf) as He.
  exists (length (unexpired now (TTLCache._ttl c) (TTLCache._data c))),
         (dict.keys (unexpired now (TTLCache._ttl c) (TTLCache._data c))),
         (TTLCache.set_data (unexpired now (TTLCache._ttl c) (TTLCache._data c)) c).
  split; [unfold TTLCache.__len__, mbind, M_bind; by rewrite He|].
  split; [unfold TTLCache.__iter__, mbind, M_bind; by rewrite He|].
  split; [unfold dict.keys; by rewrite length_fmap|].
  split; [by apply wf_unexpired|].
  split; [unfold dict.keys; apply fmap_sublist, sublist_filter|].
  intros k. split.
  - intros Hin. apply contains_true, contains_lookup in Hin as [[v ts] Hl].
    exists v, ts. by apply lookup_unexpired in Hl.
  - intros (v & ts & Hl & Hx). apply contains_true, contains_lookup.
    exists (v, ts). by apply lookup_unexpired.
Qed.

(** X19. The configuration is fixed at construction: whatever calls are made,
    at whatever clock readings, an LRUCache keeps the [max_size] and a
    TTLCache keeps the [ttl] it was built with. *)
Theorem configuration_is_fixed {K V : Type} `{EqDecision K} `{Repr K, Repr V} :
  (forall (n : Z) (clock : nat -> float) (ops : list (LRUCache.op K V)),
     LRUCache.max_size (snd (LRUCache.run clock 0 ops (LRUCache.new n))) = n) /\
  (forall (ttl : float) (clock : nat -> float) (ops : list (TTLCache.op K V)),
     TTLCache._ttl (snd (TTLCache.run clock 0 ops (TTLCache.new ttl))) = ttl).
Proof.
  split.
  - intros n clock ops. apply (max_size_run clock ops 0 (LRUCache.new n)).
  - intros ttl clock ops.
    apply (ttl_run_ttl clock ops 0 (TTLCache.new ttl)). apply NoDup_nil_2.
Qed.

Lemma lookup_remove_Some {K E : Type} `{EqDecision K} (k key : K) (e : E)
    (d : dict.t K E) :
  dict.lookup k (dict.remove key d) = Some e -> dict.lookup k d = Some e.
Proof.
  destruct (decide (key = k)) as [->|Hne].
  - by rewrite lookup_remove_eq.
  - by rewrite lookup_remove_ne.
Qed.

(** an entry found after a call was written by that call, a set at the
    clock value of the call, or was there before *)
Lemma ttl_step_entry_origin {K V : Type} `{EqDecision K} `{Repr K, Repr V}
    (c : TTLCache.t K V) (o : TTLCache.op K V) (now : float) (k : K) (v : V)
    (ts : float) :
  dict.wf (TTLCache._data c) ->
  dict.lookup k (TTLCache._data (snd (TTLCache.step o now c))) = Some (v, ts) ->
  (o = TTLCache.SetItem k v /\ ts = now) \/
  dict.lookup k (TTLCache._data c) = Some (v, ts).
Proof.
  intros Hwf.
  assert (forall key,
    dict.lookup k (TTLCache._data (snd (TTLCache.__getitem__ key now c))) = Some (v, ts) ->
    dict.lookup k (TTLCache._data c) = Some (v, ts)) as Hget.
  { intros key. destruct (dict.lookup key (TTLCache._data c)) as [[v' ts']|] eqn:Hl.
    - destruct (float_le (PrimFloat.sub now ts') (TTLCache._ttl c)) eqn:Hf.
      + by rewrite (ttl_getitem_fresh key now c v' ts' Hl Hf).
      + rewrite (ttl_getitem_stale key now c v' ts' Hl Hf). simpl.
        apply lookup_remove_Some.
    - by rewrite (ttl_getitem_absent key now c Hl). }
  pose proof (expire_all_spec now c Hwf) as He.
  assert (dict.lookup k (unexpired now (TTLCache._ttl c) (TTLCache._data c)) = Some (v, ts) ->
          dict.lookup k (TTLCache._data c) = Some (v, ts)) as Hsweep.
  { intros Hl. by apply lookup_unexpired in Hl as [Hl _]. }
  destruct o as [key value|key|key default|key|key| | |];
    unfold TTLCache.step, TTLCache.returning.
  - simpl. destruct (decide (key = k)) as [->|Hne].
    + rewrite lookup_setitem_eq. intros [= -> ->]. by left.
    + rewrite lookup_setitem_ne by done. by right.
  - intros Hl. right. apply (Hget key).
    destruct (TTLCache.__getitem__ key now c) as [[x|e] c']; exact Hl.
  - intros Hl. right. apply (Hget key). revert Hl.
    unfold TTLCache.get, try_except, mbind, M_bind.
    destruct (TTLCache.__getitem__ key now c) as [[x|e] c']; simpl; done.
  - intros Hl. right. revert Hl.
    destruct (dict.lookup key (TTLCache._data c)) as [[v' ts']|] eqn:Hl'.
    + rewrite (ttl_delitem_present key c v' ts' Hl'). simpl. apply lookup_remove_Some.
    + by rewrite (ttl_delitem_absent key c Hl').
  - intros Hl. right. apply (Hget key). rewrite <- ttl_contains_state.
    destruct (TTLCache.__contains__ key now c) as [[b|e] c']; exact Hl.
  - unfold TTLCache.__len__, mbind, M_bind. rewrite He. simpl. by right; apply Hsweep.
  - unfold TTLCache.__iter__, mbind, M_bind. rewrite He. simpl. by right; apply Hsweep.
  - unfold TTLCache.__repr__, mbind, M_bind. rewrite He. simpl. by right; apply Hsweep.
Qed.

Lemma ttl_run_entry_origin {K V : Type} `{EqDecision K} `{Repr K, Repr V}
    (clock : nat -> float) (ops : list (TTLCache.op K V)) (k : K) (v : V)
    (ts : float) : forall i c,
  dict.wf (TTLCache._data c) ->
  dict.lookup k (TTLCache._data (snd (TTLCache.run clock i ops c))) = Some (v, ts) ->
  (exists j, ops !! j = Some (TTLCache.SetItem k v) /\ clock (i + j)%nat = ts) \/
  dict.lookup k (TTLCache._data c) = Some (v, ts).
Proof.
  induction ops as [|o ops IH]; intros i c Hwf; simpl; [by right|].
  pose proof (ttl_wf_step o (clock i) c Hwf) as Hwf'.
  pose proof (ttl_step_entry_origin c o (clock i) k v ts Hwf) as Hstep.
  destruct (TTLCache.step o (clock i) c) as [r c']. simpl in Hwf', Hstep.
  specialize (IH (S i) c' Hwf').
  destruct (TTLCache.run clock (S i) ops c') as [rs c'']. simpl in *.
  intros Hl. destruct (IH Hl) as [(j & Hj & Hts)|Hc'].
  - left. exists (S j). split; [done|]. by rewrite <- Hts, Nat.add_succ_r.
  - destruct (Hstep Hc') as [[-> ->]|Hc]; [|by right].
    left. exists 0%nat. split; [done|]. by rewrite Nat.add_0_r.
Qed.

(** X20. What a TTLCache get returns was set recently: on every cache built
    by [TTLCache(ttl)] and used through its methods, where the [j]-th call
    reads the clock value [clock j], if a get of [k] at [now] returns [v],
    then some earlier call was the set of [k] to [v], and the clock value
    of that set is at most [ttl] before [now]. *)
Theorem ttl_get_returns_recent_set {K V : Type} `{EqDecision K} `{Repr K, Repr V}
    (ttl : float) (clock : nat -> float) (ops : list (TTLCache.op K V))
    (k : K) (v : V) (now : float) :
  fst (TTLCache.__getitem__ k now (snd (TTLCache.run clock 0 ops (TTLCache.new ttl))))
  = Ok v ->
  exists j, ops !! j = Some (TTLCache.SetItem k v) /\
    float_le (PrimFloat.sub now (clock j)) ttl = true.
Proof.
  set (c := snd (TTLCache.run clock 0 ops (TTLCache.new ttl))).
  assert (dict.wf (TTLCache._data (TTLCache.new ttl : TTLCache.t K V))) as Hwf0
    by apply NoDup_nil_2.
  assert (TTLCache._ttl c = ttl) as Httl
    by apply (ttl_run_ttl clock ops 0 (TTLCache.new ttl) Hwf0).
  intros Hget.
  destruct (dict.lookup k (TTLCache._data c)) as [[v' ts]|] eqn:Hl.
  - destruct (float_le (PrimFloat.sub now ts) (TTLCache._ttl c)) eqn:Hf.
    + rewrite (ttl_getitem_fresh k now c v' ts Hl Hf) in Hget. injection Hget as ->.
      destruct (ttl_run_entry_origin clock ops k v ts 0 (TTLCache.new ttl) Hwf0 Hl)
        as [(j & Hj & Hts)|Hnew]; [|done].
      exists j. split; [done|]. simpl in Hts. by rewrite Hts, <- Httl.
    + by rewrite (ttl_getitem_stale k now c v' ts Hl Hf) in Hget.
  - by rewrite (ttl_getitem_absent k now c Hl) in Hget.
Qed.

Lemma ttl_get_returns_recent_set_witness :
  let clock := fun i : nat => match i with O => 10%float | _ => 20%float end in
  let ops := [TTLCache.SetItem "a" 1; TTLCache.SetItem "b" 2; TTLCache.Len] in
  fst (TTLCache.__getitem__ "b" 50%float
         (snd (TTLCache.run clock 0 ops (TTLCache.new 60%float : TTLCache.t string Z))))
  = Ok 2 /\
  exists j, ops !! j = Some (TTLCache.SetItem "b" 2) /\
    float_le (PrimFloat.sub 50 (clock j)) 60 = true.
Proof.
  split; [reflexivity|].
  exact (ttl_get_returns_recent_set (K:=string) (V:=Z) 60%float
    (fun i : nat => match i with O => 10%float | _ => 20%float end)
    [TTLCache.SetItem "a" 1; TTLCache.SetItem "b" 2; TTLCache.Len]
    "b" 2 50%float eq_refl).
Defined.
End runs_further.
